(** * TTS dataset editor: the edit session of [dataset_edit.py]

    A shallow embedding of the dataset edit session implemented by
    [MainWindow] in [src/dataset_edit.py] together with the list view of
    [src/gui_components.py], and the properties of loading, filtering,
    saving and exporting that the specification states about it.

    Python objects are kept in a store and referred to by location, so that
    the list of the session and the list shown by the view share their
    entries as they do in the program.  Handlers are computations in a
    state-and-exception monad over the whole world: window, store, file
    system and the trace of what was shown to the user. *)

From Stdlib Require Import ZArith NArith Ascii String List Sorted Permutation.
From Stdlib Require Import DecimalString DecimalZ.
From stdpp Require Import base decidable option list gmap.
Import ListNotations.

#[local] Open Scope Z_scope.

(** ** Python strings

    A Python [str] is a sequence of Unicode code points.  The literals of
    the program are all ASCII and are written with [u]. *)

Abbreviation str := (list N) (only parsing).

Definition u (s : string) : str := List.map N_of_ascii (list_ascii_of_string s).

Definition chr_eqb (a b : N) : bool := N.eqb a b.

Fixpoint str_eqb (a b : str) : bool :=
  match a, b with
  | [], [] => true
  | x :: a', y :: b' => chr_eqb x y && str_eqb a' b'
  | _, _ => false
  end.

(** [s.startswith(p)] *)
Fixpoint startswith (s p : str) : bool :=
  match p, s with
  | [], _ => true
  | c :: p', d :: s' => chr_eqb c d && startswith s' p'
  | _ :: _, [] => false
  end.

(** [q in s] on strings: [q] occurs in [s] as a contiguous run. *)
Fixpoint contains (s q : str) : bool :=
  startswith s q ||
  match s with
  | [] => false
  | _ :: s' => contains s' q
  end.

(** [str.isspace] on one code point: the characters Python treats as white
    space (bidirectional class WS, B or S, or category Zs). *)
Definition isspace (c : N) : bool :=
  ((9 <=? c) && (c <=? 13) || (28 <=? c) && (c <=? 32) || (c =? 133) || (c =? 160)
   || (c =? 5760) || (8192 <=? c) && (c <=? 8202) || (c =? 8232) || (c =? 8233)
   || (c =? 8239) || (c =? 8287) || (c =? 12288))%N.

Fixpoint lstrip (s : str) : str :=
  match s with
  | c :: s' => if isspace c then lstrip s' else s
  | [] => []
  end.

Definition rstrip (s : str) : str := rev (lstrip (rev s)).

(** [s.strip()] *)
Definition strip (s : str) : str := rstrip (lstrip s).

(** [s.split(sep)] for a one-character separator: never empty. *)
Fixpoint split (sep : N) (s : str) : list str :=
  match s with
  | [] => [[]]
  | c :: s' =>
      if chr_eqb c sep then [] :: split sep s'
      else match split sep s' with
           | w :: ws => (c :: w) :: ws
           | [] => [[c]]
           end
  end.

(** [s.rfind(c)] for one character: the last position of [c], if any. *)
Fixpoint rfind (c : N) (s : str) : option nat :=
  match s with
  | [] => None
  | d :: s' =>
      match rfind c s' with
      | Some i => Some (S i)
      | None => if chr_eqb d c then Some 0%nat else None
      end
  end.

(** [str(n)] for an integer: decimal digits, a minus sign for negatives. *)
Definition str_of_Z (z : Z) : str := u (NilZero.string_of_int (Z.to_int z)).

Definition slash : N := 47.
Definition dot : N := 46.

(** ** Paths ([pathlib], POSIX flavour)

    A path is its root (empty, one slash or two slashes) and its components; parsing
    drops empty components and single dots, and keeps double dots. *)

Record Path := mkPath { root : str; parts : list str }.

#[global] Instance Path_eq_dec : EqDecision Path.
Proof. solve_decision. Defined.

#[global] Instance Path_countable : Countable Path.
Proof.
  refine (inj_countable' (fun p => (root p, parts p))
                         (fun rp => mkPath (fst rp) (snd rp)) _).
  intros [r p]. reflexivity.
Defined.

Definition splitroot (s : str) : str :=
  match s with
  | a :: s1 =>
      if chr_eqb a slash then
        match s1 with
        | b :: s2 =>
            if chr_eqb b slash then
              match s2 with
              | c :: _ => if chr_eqb c slash then [slash] else [slash; slash]
              | [] => [slash; slash]
              end
            else [slash]
        | [] => [slash]
        end
      else []
  | [] => []
  end.

Definition is_component (c : str) : bool :=
  negb (str_eqb c []) && negb (str_eqb c [dot]).

Definition parse_path (s : str) : Path :=
  {| root := splitroot s; parts := List.filter is_component (split slash s) |}.

(** [p.joinpath(seg, ...)]: an absolute segment replaces what came before. *)
Definition join1 (p : Path) (seg : str) : Path :=
  let q := parse_path seg in
  match root q with
  | [] => {| root := root p; parts := parts p ++ parts q |}
  | _ => q
  end.

Definition joinpath (p : Path) (segs : list str) : Path := fold_left join1 segs p.

(** [p.name]: the last component, or the empty string. *)
Definition name (p : Path) : str := List.last (parts p) [].

(** The position of the dot that starts the suffix of a name: the last dot,
    when it is neither the first nor the last character. *)
Definition suffix_dot (nm : str) : option nat :=
  match rfind dot nm with
  | Some i => if ((0 <? i) && (i <? length nm - 1))%nat then Some i else None
  | None => None
  end.

(** [p.suffix] *)
Definition suffix (p : Path) : str :=
  match suffix_dot (name p) with
  | Some i => drop i (name p)
  | None => []
  end.

(** [p.stem] *)
Definition stem (p : Path) : str :=
  match suffix_dot (name p) with
  | Some i => take i (name p)
  | None => name p
  end.

(** [p.with_suffix(sfx)]; [None] stands for the [ValueError] of an invalid
    suffix or of a path without a name. *)
Definition with_suffix (p : Path) (sfx : str) : option Path :=
  if contains sfx [slash] then None
  else if (negb (str_eqb sfx []) && negb (startswith sfx [dot])) || str_eqb sfx [dot] then None
  else if str_eqb (name p) [] then None
  else
    let nm :=
      match suffix_dot (name p) with
      | Some i => take i (name p) ++ sfx
      | None => name p ++ sfx
      end in
    Some {| root := root p; parts := removelast (parts p) ++ [nm] |}.

(** ** JSON documents

    What [json.load] returns and [json.dump] accepts.  A Python [dict]
    keeps its keys in insertion order, hence the association list. *)

#[local] Unset Elimination Schemes.
Inductive json : Type :=
  | JNull
  | JBool (b : bool)
  | JInt (z : Z)
  | JStr (s : str)
  | JArr (items : list json)
  | JObj (members : list (str * json)).
#[local] Set Elimination Schemes.

(** [d.get(k)] *)
Fixpoint dict_get (d : list (str * json)) (k : str) : option json :=
  match d with
  | [] => None
  | (k', v) :: d' => if str_eqb k' k then Some v else dict_get d' k
  end.

(** ** [list.sort(key=...)]

    Python's sort is stable, and the stable sort of a list under a total
    preorder is unique: insertion from the right, placing an element before
    the first one that is not smaller, computes it. *)

Section Sort.
Context {A : Type} (key : A -> Z).

Fixpoint insert_by (x : A) (l : list A) : list A :=
  match l with
  | [] => [x]
  | y :: l' => if key x <=? key y then x :: l else y :: insert_by x l'
  end.

Definition sort_by (l : list A) : list A := List.fold_right insert_by [] l.
End Sort.

(** ** The [csv] module, for the dialect of the program

    [csv.reader(f, delimiter="|")] and [csv.writer(f, delimiter="|")]: the
    default (excel) dialect with the delimiter replaced, so the quote
    character is the double quote, quotes are doubled, quoting is minimal,
    parsing is not strict and the writer ends each row with CR LF. *)

Definition delimiter : N := 124.
Definition quotechar : N := 34.
Definition CR : N := 13.
Definition LF : N := 10.
Definition lineterminator : str := [CR; LF].

(** *** Writer *)

Definition needs_quote (c : N) : bool :=
  chr_eqb c delimiter || chr_eqb c quotechar || existsb (chr_eqb c) lineterminator.

Definition csv_field_data (f : str) : str :=
  flat_map (fun c => if chr_eqb c quotechar then [quotechar; quotechar] else [c]) f.

Definition csv_field (f : str) : str :=
  if existsb needs_quote f then [quotechar] ++ csv_field_data f ++ [quotechar] else f.

Fixpoint csv_join (fields : list str) : str :=
  match fields with
  | [] => []
  | [f] => csv_field f
  | f :: fs => csv_field f ++ [delimiter] ++ csv_join fs
  end.

(** [writer.writerow(row)]: one lone empty field is written quoted. *)
Definition csv_writerow (row : list str) : str :=
  match row with
  | [[]] => [quotechar; quotechar] ++ lineterminator
  | _ => csv_join row ++ lineterminator
  end.

(** [writer.writerows(rows)] *)
Definition csv_writerows (rows : list (list str)) : str := flat_map csv_writerow rows.

(** *** Reader *)

(** Reading a text file opened with the default [newline=None]: CR LF and a
    lone CR both arrive as LF, and iterating over the file gives its lines,
    each with its newline. *)
Fixpoint universal_newlines (s : str) : str :=
  match s with
  | [] => []
  | c :: s' =>
      if chr_eqb c CR then
        match s' with
        | d :: s'' => if chr_eqb d LF then LF :: universal_newlines s''
                      else LF :: universal_newlines s'
        | [] => [LF]
        end
      else c :: universal_newlines s'
  end.

Fixpoint readlines (s : str) : list str :=
  match s with
  | [] => []
  | c :: s' =>
      if chr_eqb c LF then [c] :: readlines s'
      else match readlines s' with
           | l :: ls => (c :: l) :: ls
           | [] => [[c]]
           end
  end.

Inductive csv_state : Type :=
  | START_RECORD | START_FIELD | IN_FIELD | IN_QUOTED_FIELD
  | QUOTE_IN_QUOTED_FIELD | EAT_CRNL.

(** The reader between two characters: its state, the field being read
    (last character first) and the fields of the record so far (last field
    first). *)
Record csv_reader := mkReader {
  rd_state : csv_state;
  rd_field : str;
  rd_fields : list str
}.

Definition parse_reset : csv_reader := mkReader START_RECORD [] [].

Definition parse_save_field (r : csv_reader) (s : csv_state) : csv_reader :=
  mkReader s [] (rev (rd_field r) :: rd_fields r).

Definition parse_add_char (r : csv_reader) (s : csv_state) (c : N) : csv_reader :=
  mkReader s (c :: rd_field r) (rd_fields r).

Definition set_state (r : csv_reader) (s : csv_state) : csv_reader :=
  mkReader s (rd_field r) (rd_fields r).

Definition is_newline (c : N) : bool := chr_eqb c LF || chr_eqb c CR.

(** One step of the reader on a character, or on the end of a line
    ([None]).  The result is [None] when the reader raises [csv.Error]. *)
Definition parse_start_field (r : csv_reader) (c : option N) : option csv_reader :=
  match c with
  | None => Some (parse_save_field r START_RECORD)
  | Some c =>
      if is_newline c then Some (parse_save_field r EAT_CRNL)
      else if chr_eqb c quotechar then Some (set_state r IN_QUOTED_FIELD)
      else if chr_eqb c delimiter then Some (parse_save_field r START_FIELD)
      else Some (parse_add_char r IN_FIELD c)
  end.

Definition parse_process_char (r : csv_reader) (c : option N) : option csv_reader :=
  match rd_state r with
  | START_RECORD =>
      match c with
      | None => Some r
      | Some c' =>
          if is_newline c' then Some (set_state r EAT_CRNL)
          else parse_start_field r c
      end
  | START_FIELD => parse_start_field r c
  | IN_FIELD =>
      match c with
      | None => Some (parse_save_field r START_RECORD)
      | Some c =>
          if is_newline c then Some (parse_save_field r EAT_CRNL)
          else if chr_eqb c delimiter then Some (parse_save_field r START_FIELD)
          else Some (parse_add_char r IN_FIELD c)
      end
  | IN_QUOTED_FIELD =>
      match c with
      | None => Some r
      | Some c =>
          if chr_eqb c quotechar then Some (set_state r QUOTE_IN_QUOTED_FIELD)
          else Some (parse_add_char r IN_QUOTED_FIELD c)
      end
  | QUOTE_IN_QUOTED_FIELD =>
      match c with
      | None => Some (parse_save_field r START_RECORD)
      | Some c =>
          if chr_eqb c quotechar then Some (parse_add_char r IN_QUOTED_FIELD c)
          else if chr_eqb c delimiter then Some (parse_save_field r START_FIELD)
          else if is_newline c then Some (parse_save_field r EAT_CRNL)
          else Some (parse_add_char r IN_FIELD c)
      end
  | EAT_CRNL =>
      match c with
      | None => Some (set_state r START_RECORD)
      | Some c => if is_newline c then Some r else None
      end
  end.

Fixpoint parse_line (r : csv_reader) (line : str) : option csv_reader :=
  match line with
  | [] => parse_process_char r None
  | c :: line' =>
      match parse_process_char r (Some c) with
      | Some r' => parse_line r' line'
      | None => None
      end
  end.

(** The rows the reader yields for the lines of a file.  A record is
    complete when the reader is back at the start of a record after a line;
    a quoted field may run over several lines, and the end of the file
    closes a record that is still open. *)
Fixpoint csv_records (r : csv_reader) (lines : list str) : option (list (list str)) :=
  match lines with
  | [] =>
      match rd_field r, rd_state r with
      | [], IN_QUOTED_FIELD | _ :: _, _ =>
          Some [rev (rd_fields (parse_save_field r START_RECORD))]
      | [], _ => Some []
      end
  | line :: lines' =>
      match parse_line r line with
      | None => None
      | Some r' =>
          match rd_state r' with
          | START_RECORD =>
              match csv_records parse_reset lines' with
              | Some rows => Some (rev (rd_fields r') :: rows)
              | None => None
              end
          | _ => csv_records r' lines'
          end
      end
  end.

(** [list(csv.reader(f, delimiter="|"))] on the text of the file. *)
Definition csv_reader_rows (text : str) : option (list (list str)) :=
  csv_records parse_reset (readlines (universal_newlines text)).

(** [enumerate(rows)] *)
Fixpoint enumerate_from {A : Type} (i : Z) (l : list A) : list (Z * A) :=
  match l with
  | [] => []
  | x :: l' => (i, x) :: enumerate_from (i + 1) l'
  end.

Definition enumerate {A : Type} (l : list A) : list (Z * A) := enumerate_from 0 l.

(** ** [int(s)]

    White space around the number is ignored; a sign may precede the
    digits; single underscores may separate digits.  Only the ASCII digits
    are read here. *)

Definition digit_of (c : N) : option Z :=
  if ((48 <=? c) && (c <=? 57))%N then Some (Z.of_N c - 48) else None.

Definition underscore : N := 95.

(** [digits acc after_digit s]: [after_digit] tells whether an underscore
    may come next. *)
Fixpoint digits (acc : Z) (after_digit : bool) (s : str) : option Z :=
  match s with
  | [] => if after_digit then Some acc else None
  | c :: s' =>
      match digit_of c with
      | Some d => digits (10 * acc + d) true s'
      | None =>
          if chr_eqb c underscore && after_digit
          then match s' with
               | [] => None
               | _ => digits acc false s'
               end
          else None
      end
  end.

Definition py_int (s : str) : option Z :=
  match strip s with
  | 45%N :: s' => option_map Z.opp (digits 0 false s')
  | 43%N :: s' => digits 0 false s'
  | s' => digits 0 false s'
  end.

(** ** Regular expressions

    The [regex] package is not part of the repository.  The search handler
    is written against this interface of it: [re_compile] is
    [regex.compile(s, regex.U)], with [None] for a pattern that does not
    compile; [re_match] is [reg.match(s)] and [re_search] is
    [reg.search(s)], both read for their truth value.  [re_lang p w] says
    that the pattern matches exactly the whole of [w]; the two laws are the
    documented meaning of the two calls. *)

Record regex_engine := {
  pattern : Type;
  re_compile : str -> option pattern;
  re_match : pattern -> str -> bool;
  re_search : pattern -> str -> bool;
  re_lang : pattern -> str -> Prop;
  re_match_spec : forall p s,
    re_match p s = true <-> exists w rest, s = w ++ rest /\ re_lang p w;
  re_search_spec : forall p s,
    re_search p s = true <-> exists pre w rest, s = pre ++ w ++ rest /\ re_lang p w
}.

(** *** A small engine

    Patterns built from characters, the dot, concatenation, alternation and
    the star, matched by derivatives.  It is the engine the examples run
    on. *)

Inductive re : Type :=
  | Void
  | Eps
  | Chr (c : N)
  | AnyChr
  | Cat (r1 r2 : re)
  | Alt (r1 r2 : re)
  | Star (r : re).

Fixpoint nullable (r : re) : bool :=
  match r with
  | Void => false
  | Eps => true
  | Chr _ => false
  | AnyChr => false
  | Cat r1 r2 => nullable r1 && nullable r2
  | Alt r1 r2 => nullable r1 || nullable r2
  | Star _ => true
  end.

(** The dot matches every character but the line feed. *)
Fixpoint deriv (a : N) (r : re) : re :=
  match r with
  | Void => Void
  | Eps => Void
  | Chr c => if chr_eqb a c then Eps else Void
  | AnyChr => if chr_eqb a LF then Void else Eps
  | Cat r1 r2 =>
      if nullable r1 then Alt (Cat (deriv a r1) r2) (deriv a r2)
      else Cat (deriv a r1) r2
  | Alt r1 r2 => Alt (deriv a r1) (deriv a r2)
  | Star r' => Cat (deriv a r') (Star r')
  end.

(** Some prefix of [s] is matched. *)
Fixpoint match_prefix (r : re) (s : str) : bool :=
  nullable r ||
  match s with
  | [] => false
  | a :: s' => match_prefix (deriv a r) s'
  end.

(** Some run of characters of [s] is matched. *)
Fixpoint match_anywhere (r : re) (s : str) : bool :=
  match_prefix r s ||
  match s with
  | [] => false
  | _ :: s' => match_anywhere r s'
  end.

Inductive matches : re -> str -> Prop :=
  | m_eps : matches Eps []
  | m_chr c : matches (Chr c) [c]
  | m_any c : c <> LF -> matches AnyChr [c]
  | m_cat r1 r2 w1 w2 : matches r1 w1 -> matches r2 w2 -> matches (Cat r1 r2) (w1 ++ w2)
  | m_alt_l r1 r2 w : matches r1 w -> matches (Alt r1 r2) w
  | m_alt_r r1 r2 w : matches r2 w -> matches (Alt r1 r2) w
  | m_star_nil r : matches (Star r) []
  | m_star_cons r w1 w2 : matches r w1 -> matches (Star r) w2 -> matches (Star r) (w1 ++ w2).

(** The syntax read by the small engine: ordinary characters, [.], a
    postfix [*] on the item before it, and a backslash before a character
    taken literally.  Anything else does not compile. *)
Definition is_meta (c : N) : bool :=
  existsb (chr_eqb c) (u "\.*+?()[]{}|^$").

Inductive token : Type := TChr (c : N) | TAny | TStar.

Definition backslash : N := 92.
Definition star : N := 42.

Fixpoint tokens (s : str) : option (list token) :=
  match s with
  | [] => Some []
  | c :: s' =>
      if chr_eqb c backslash then
        match s' with
        | d :: s'' =>
            if is_meta d then option_map (cons (TChr d)) (tokens s'') else None
        | [] => None
        end
      else if chr_eqb c dot then option_map (cons TAny) (tokens s')
      else if chr_eqb c star then option_map (cons TStar) (tokens s')
      else if is_meta c then None
      else option_map (cons (TChr c)) (tokens s')
  end.

(** The items read so far, last first; [true] marks an item that already
    carries a star and cannot take another. *)
Fixpoint build (acc : list (re * bool)) (ts : list token) : option (list (re * bool)) :=
  match ts with
  | [] => Some acc
  | TChr c :: ts' => build ((Chr c, false) :: acc) ts'
  | TAny :: ts' => build ((AnyChr, false) :: acc) ts'
  | TStar :: ts' =>
      match acc with
      | (a, false) :: acc' => build ((Star a, true) :: acc') ts'
      | _ => None
      end
  end.

Definition cat_all (items : list re) : re := List.fold_right Cat Eps items.

Definition small_compile (s : str) : option re :=
  match tokens s with
  | Some ts =>
      match build [] ts with
      | Some acc => Some (cat_all (List.map fst (rev acc)))
      | None => None
      end
  | None => None
  end.

(** ** Entries *)

Record WavAndTranscript := mkEntry {
  idx : Z;
  wavpath : Path;
  transcript : str;
  pending_review : bool;
  deleted : bool
}.

Definition with_transcript (value : str) (o : WavAndTranscript) : WavAndTranscript :=
  mkEntry (idx o) (wavpath o) value (pending_review o) (deleted o).

Definition with_pending_review (b : bool) (o : WavAndTranscript) : WavAndTranscript :=
  mkEntry (idx o) (wavpath o) (transcript o) b (deleted o).

Definition with_deleted (b : bool) (o : WavAndTranscript) : WavAndTranscript :=
  mkEntry (idx o) (wavpath o) (transcript o) (pending_review o) b.

(** [edit_transcript]: the entry afterwards and whether it changed. *)
Definition edit_transcript (value : str) (o : WavAndTranscript) : WavAndTranscript * bool :=
  if negb (str_eqb value (transcript o)) then (with_transcript value o, true)
  else (o, false).

Definition asdict (o : WavAndTranscript) : list (str * json) :=
  [ (u "idx", JInt (idx o));
    (u "filename", JStr (stem (wavpath o)));
    (u "text", JStr (transcript o));
    (u "pending_review", JBool (pending_review o));
    (u "deleted", JBool (deleted o)) ].

(** [operator.itemgetter("idx")] on a record made by [asdict], which always
    binds the key to an integer. *)
Definition itemgetter_idx (d : list (str * json)) : Z :=
  match dict_get d (u "idx") with
  | Some (JInt z) => z
  | _ => 0
  end.

(** The [label] property: the text of the entry's row in the list.  The
    number shown is the index plus one; the mark of a deleted entry comes
    before the mark of one pending review. *)
Definition label (o : WavAndTranscript) : str :=
  let label := str_of_Z (idx o + 1) ++ u ". " ++ stem (wavpath o) in
  let label := if pending_review o then u "(review) " ++ label else label in
  if deleted o then u "(deleted) " ++ label else label.

(** ** The store

    Entries are objects: the list of the session and the list shown by the
    view refer to the same ones.  A reference is a position in the store;
    objects are never freed. *)

Abbreviation loc := nat (only parsing).
Abbreviation store := (list WavAndTranscript) (only parsing).

(** The objects a list of references denotes. *)
Definition deref (h : store) (ls : list loc) : list WavAndTranscript :=
  omap (fun l => h !! l) ls.

(** An attribute read through a reference, for use as a filter. *)
Definition attr (h : store) (f : WavAndTranscript -> bool) (l : loc) : bool :=
  match h !! l with
  | Some o => f o
  | None => false
  end.

Definition attr_idx (h : store) (l : loc) : Z :=
  match h !! l with
  | Some o => idx o
  | None => 0
  end.

(** ** The list view ([ImmutableObjectListView] over [DialogListCtrl]) *)

Definition NOT_FOUND : Z := -1.

Module ImmutableObjectListView.

(** [_objects] is the list being shown, one row per object, and
    [FocusedItem] the focused row or [NOT_FOUND]. *)
Record t := mk { _objects : list loc; FocusedItem : Z }.

Definition ItemCount (v : t) : Z := Z.of_nat (length (_objects v)).

(** [set_focused_item(idx)]: rows past the end are ignored; the control
    has no row before the first. *)
Definition set_focused_item (i : Z) (v : t) : t :=
  if i >=? ItemCount v then v
  else if i <? 0 then v
  else mk (_objects v) i.

(** [set_objects(objects)] with the default [focus_item=0] and
    [set_focus=True], the only way the program calls it: the rows are
    cleared and filled again, and the first row is focused. *)
Definition set_objects (objects : list loc) (v : t) : t :=
  set_focused_item 0 (mk objects NOT_FOUND).

(** [get_selected()] *)
Definition get_selected (v : t) : option loc :=
  if FocusedItem v =? NOT_FOUND then None
  else _objects v !! Z.to_nat (FocusedItem v).

(** [GetNextItem(i, geometry=...)] below and above the row [i]. *)
Definition next_below (i : Z) (v : t) : Z :=
  if i + 1 <? ItemCount v then i + 1 else NOT_FOUND.

Definition next_above (i : Z) (v : t) : Z :=
  if 0 <? i then i - 1 else NOT_FOUND.

End ImmutableObjectListView.

Module LV := ImmutableObjectListView.

(** ** The window, the files and the world *)

Record MainWindow := mkWindow {
  _objects : option (list loc);
  _dataset_dir : option Path;
  _is_source_csv : bool;
  Title : str;
  searchBtn : bool;
  pendingReviewBtn : bool;
  deletedBtn : bool;
  wavList : LV.t
}.

(** A file holds text, or a JSON document.  A document is kept as the value
    [json.dump] was given and [json.load] gives back; how it is laid out in
    the file (indentation, unescaped non-ASCII characters) is not
    represented, and a text file is taken not to be a JSON document. *)
Inductive content : Type :=
  | FText (s : str)
  | FJson (v : json).

(** [readonly] holds the paths that cannot be opened for writing. *)
Record FileSystem := mkFS {
  files : gmap Path content;
  dirs : gset Path;
  readonly : gset Path
}.

Inductive sound : Type := SAVE_SOUND | ALERT_SOUND | NAV_SOUND.

(** What reaches the user. *)
Inductive ui_event : Type :=
  | MessageBox (message caption : string)
  | Bell
  | Play (s : sound).

(** The answer to a yes/no message box. *)
Inductive answer : Type := YES | NO.

Record World := mkWorld {
  heap : store;
  win : MainWindow;
  disk : FileSystem;
  ui : list ui_event
}.

Inductive exn : Type :=
  | NameError (name : string)
  | OSError (p : Path)
  | JSONDecodeError
  | KeyError (k : str)
  | TypeError
  | ValueError
  | AttributeError
  | CsvError
  | OutOfModel.

Inductive result (A : Type) : Type :=
  | Ok (a : A)
  | Raised (e : exn).
Arguments Ok {A} a.
Arguments Raised {A} e.

(** ** Handlers as computations

    A computation runs in a world and ends with a value or an exception;
    what it did before raising stays done. *)

Definition M (A : Type) : Type := World -> result A * World.

#[global] Instance M_ret : MRet M := fun A a w => (Ok a, w).

#[global] Instance M_bind : MBind M := fun A B f m w =>
  match m w with
  | (Ok a, w') => f a w'
  | (Raised e, w') => (Raised e, w')
  end.

Definition raise {A : Type} (e : exn) : M A := fun w => (Raised e, w).

Definition gets {A : Type} (f : World -> A) : M A := fun w => (Ok (f w), w).

Definition modify (f : World -> World) : M unit := fun w => (Ok tt, f w).

Definition set_heap (h : store) (w : World) : World := mkWorld h (win w) (disk w) (ui w).
Definition set_win (m : MainWindow) (w : World) : World := mkWorld (heap w) m (disk w) (ui w).
Definition set_disk (d : FileSystem) (w : World) : World := mkWorld (heap w) (win w) d (ui w).
Definition emit (e : ui_event) (w : World) : World := mkWorld (heap w) (win w) (disk w) (ui w ++ [e]).

Definition set__objects (v : option (list loc)) (m : MainWindow) : MainWindow :=
  mkWindow v (_dataset_dir m) (_is_source_csv m) (Title m)
           (searchBtn m) (pendingReviewBtn m) (deletedBtn m) (wavList m).
Definition set__dataset_dir (v : option Path) (m : MainWindow) : MainWindow :=
  mkWindow (_objects m) v (_is_source_csv m) (Title m)
           (searchBtn m) (pendingReviewBtn m) (deletedBtn m) (wavList m).
Definition set__is_source_csv (v : bool) (m : MainWindow) : MainWindow :=
  mkWindow (_objects m) (_dataset_dir m) v (Title m)
           (searchBtn m) (pendingReviewBtn m) (deletedBtn m) (wavList m).
Definition SetTitle (v : str) (m : MainWindow) : MainWindow :=
  mkWindow (_objects m) (_dataset_dir m) (_is_source_csv m) v
           (searchBtn m) (pendingReviewBtn m) (deletedBtn m) (wavList m).
Definition set_searchBtn (v : bool) (m : MainWindow) : MainWindow :=
  mkWindow (_objects m) (_dataset_dir m) (_is_source_csv m) (Title m)
           v (pendingReviewBtn m) (deletedBtn m) (wavList m).
Definition set_pendingReviewBtn (v : bool) (m : MainWindow) : MainWindow :=
  mkWindow (_objects m) (_dataset_dir m) (_is_source_csv m) (Title m)
           (searchBtn m) v (deletedBtn m) (wavList m).
Definition set_deletedBtn (v : bool) (m : MainWindow) : MainWindow :=
  mkWindow (_objects m) (_dataset_dir m) (_is_source_csv m) (Title m)
           (searchBtn m) (pendingReviewBtn m) v (wavList m).
Definition set_wavList (v : LV.t) (m : MainWindow) : MainWindow :=
  mkWindow (_objects m) (_dataset_dir m) (_is_source_csv m) (Title m)
           (searchBtn m) (pendingReviewBtn m) (deletedBtn m) v.

Definition modify_win (f : MainWindow -> MainWindow) : M unit :=
  modify (fun w => set_win (f (win w)) w).

(** *** The user interface *)

Definition wx_Bell : M unit := modify (emit Bell).

Definition wx_MessageBox (box : ui_event) : M unit := modify (emit box).

(** The message boxes of the program, with the place of an interpolated
    value left as in the source. *)
Definition DIRECTORY_NOT_FOUND : ui_event :=
  MessageBox "Directory not found" "Error".
Definition NO_METADATA_CSV : ui_event :=
  MessageBox "`metadata.csv` not found in {chosen_path}." "No `metadata.csv`".
Definition PREVIOUS_EDITS_FOUND : ui_event :=
  MessageBox "You have saved edits in this directory.\nWould you like to reload  them?"
             "Previous edits found".
Definition POSSIBLE_DATA_LOSS : ui_event :=
  MessageBox "You have existing edits in the file `{edited_metadata}`.\nSaving will overwrite those edits.\nAre you sure you want to proceed?"
             "Possible data loss".
Definition SAVE_SUCCESS : ui_event :=
  MessageBox "Edits saved to `{edited_metadata}`." "Success".
Definition PENDING_REVIEW : ui_event :=
  MessageBox "Some items are marked as pending review. Would you like to export them without further changes?"
             "Pending review".
Definition EXPORT_SUCCESS : ui_event :=
  MessageBox "Data exported to `{csv_filename}`" "Success".
Definition INVALID_REGEX : ui_event :=
  MessageBox "Invalid regex" "Error".
Definition NO_MATCHES : ui_event :=
  MessageBox "No matches found." "No matches".

(** A yes/no message box: it is shown, and the user's answer comes back. *)
Definition wx_MessageBox_YES_NO (box : ui_event) (reply : answer) : M answer :=
  _ ← wx_MessageBox box; mret reply.

(** [play_file]: the audio device is outside the model; playing is only
    recorded. *)
Definition play_file (s : sound) : M unit := modify (emit (Play s)).

(** *** The file system *)

Definition is_file (p : Path) : M bool :=
  gets (fun w => bool_decide (is_Some (files (disk w) !! p))).

(** [p.exists()] and [os.path.exists] *)
Definition path_exists (p : Path) : M bool :=
  gets (fun w => bool_decide (is_Some (files (disk w) !! p)) || bool_decide (p ∈ dirs (disk w))).

(** Opening [p] for writing and writing [c]: the file then holds exactly
    [c]. *)
Definition put_file (p : Path) (c : content) (w : World) : World :=
  set_disk (mkFS (<[p := c]> (files (disk w))) (dirs (disk w)) (readonly (disk w))) w.

Definition write_file (p : Path) (c : content) : M unit :=
  ro ← gets (fun w => bool_decide (p ∈ readonly (disk w)));
  if ro : bool then raise (OSError p)
  else modify (put_file p c).

(** [json.load] of the file at [p]. *)
Definition json_load (p : Path) : M json :=
  c ← gets (fun w => files (disk w) !! p);
  match c with
  | Some (FJson v) => mret v
  | Some (FText _) => raise JSONDecodeError
  | None => raise (OSError p)
  end.

(** The rows [csv.reader] gives for the file at [p]. *)
Definition csv_load (p : Path) : M (list (list str)) :=
  c ← gets (fun w => files (disk w) !! p);
  match c with
  | Some (FText s) =>
      match csv_reader_rows s with
      | Some rows => mret rows
      | None => raise CsvError
      end
  | Some (FJson _) => raise OutOfModel
  | None => raise (OSError p)
  end.

(** *** Names

    The names bound at the top level of [dataset_edit.py] and the built-in
    functions and types, to resolve a name that is not local. *)

#[local] Open Scope string_scope.

Definition module_globals : list string :=
  [ "__name__"; "__doc__"; "__file__"; "__builtins__";
    "audioop"; "csv"; "json"; "operator"; "os"; "sys"; "wave";
    "dataclass"; "Path"; "miniaudio"; "regex"; "wx"; "sc";
    "ColumnDefn"; "ImmutableObjectListView"; "SimpleDialog"; "make_sized_static_box";
    "DEFAULT_TITLE"; "EDITED_METADATA_FILENAME"; "SAVE_SOUND"; "ALERT_SOUND"; "NAV_SOUND";
    "WavAndTranscript"; "SearchWindow"; "MainWindow"; "app"; "main_win" ].

Definition builtins : list string :=
  [ "abs"; "aiter"; "all"; "anext"; "any"; "ascii"; "bin"; "bool"; "breakpoint";
    "bytearray"; "bytes"; "callable"; "chr"; "classmethod"; "compile"; "complex";
    "delattr"; "dict"; "dir"; "divmod"; "enumerate"; "eval"; "exec"; "filter";
    "float"; "format"; "frozenset"; "getattr"; "globals"; "hasattr"; "hash"; "help";
    "hex"; "id"; "input"; "int"; "isinstance"; "issubclass"; "iter"; "len"; "list";
    "locals"; "map"; "max"; "memoryview"; "min"; "next"; "object"; "oct"; "open";
    "ord"; "pow"; "print"; "property"; "range"; "repr"; "reversed"; "round"; "set";
    "setattr"; "slice"; "sorted"; "staticmethod"; "str"; "sum"; "super"; "tuple";
    "type"; "vars"; "zip"; "True"; "False"; "None" ].

(** The parameters and local variables of the two methods involved. *)
Definition onSave_locals : list string := [ "self"; "event" ].

Definition save_locals : list string :=
  [ "self"; "play_sound"; "edited_metadata"; "retval"; "entries"; "json_file";
    "selected_idx"; "history_file" ].

(** Reading the variable [x] inside a function with the given locals. *)
Definition load_name (locals : list string) (x : string) : M unit :=
  if existsb (String.eqb x) (locals ++ module_globals ++ builtins) then mret tt
  else raise (NameError x).

#[local] Close Scope string_scope.

(** ** [MainWindow] *)

Definition DEFAULT_TITLE : str := u "TTS Dataset Editor".
Definition EDITED_METADATA_FILENAME : str := u "metadata.edited.json".

(** The window after [__init__]. *)
Definition MainWindow_init : MainWindow :=
  mkWindow None None false DEFAULT_TITLE false false false (LV.mk [] NOT_FOUND).

(** [set_title(dirty)] *)
Definition make_title (dir : option Path) (dirty : bool) : str :=
  let title := DEFAULT_TITLE in
  let title :=
    match dir with
    | Some d => name d ++ u " - " ++ title
    | None => title
    end in
  if dirty then u "* " ++ title else title.

Definition set_title (dirty : bool) : M unit :=
  modify_win (fun m => SetTitle (make_title (_dataset_dir m) dirty) m).

(** [has_unsaved_edits()] *)
Definition has_unsaved_edits : M bool :=
  gets (fun w => startswith (Title (win w)) (u "*")).

(** [self._dataset_dir], about to be used as a path. *)
Definition dataset_dir : M Path :=
  d ← gets (fun w => _dataset_dir (win w));
  match d with
  | Some p => mret p
  | None => raise AttributeError
  end.

(** [self._objects], about to be iterated over. *)
Definition session_objects : M (list loc) :=
  o ← gets (fun w => _objects (win w));
  match o with
  | Some ls => mret ls
  | None => raise TypeError
  end.

Definition wavList_set_objects (objects : list loc) : M unit :=
  modify_win (fun m => set_wavList (LV.set_objects objects (wavList m)) m).

Definition wavList_set_focused_item (i : Z) : M unit :=
  modify_win (fun m => set_wavList (LV.set_focused_item i (wavList m)) m).

Definition wavList_get_selected : M (option loc) :=
  gets (fun w => LV.get_selected (wavList (win w))).

Definition GetFocusedItem : M Z :=
  gets (fun w => LV.FocusedItem (wavList (win w))).

(** Creating objects: they go to the end of the store. *)
Definition allocate (os : list WavAndTranscript) : M (list loc) :=
  h ← gets heap;
  _ ← modify (set_heap (h ++ os));
  mret (seq (length h) (length os)).

(** Changing the object at [l] in place. *)
Definition mutate (l : loc) (f : WavAndTranscript -> WavAndTranscript) : M unit :=
  modify (fun w => set_heap (alter f l (heap w)) w).

(** *** Opening a dataset *)

(** What the loop over [json.load(json_file)] iterates on. *)
Definition iterate (v : json) : result (list json) :=
  match v with
  | JArr items => Ok items
  | JObj members => Ok (List.map (fun kv => JStr (fst kv)) members)
  | JStr s => Ok (List.map (fun c => JStr [c]) s)
  | _ => Raised TypeError
  end.

(** [entry[k]] *)
Definition subscript (entry : json) (k : str) : result json :=
  match entry with
  | JObj d =>
      match dict_get d k with
      | Some v => Ok v
      | None => Raised (KeyError k)
      end
  | _ => Raised TypeError
  end.

(** [entry.get(k, False)] for a flag.  [subscript] has run before, so
    [entry] is a dictionary. *)
Definition get_flag (entry : json) (k : str) : result bool :=
  match entry with
  | JObj d =>
      match dict_get d k with
      | Some (JBool b) => Ok b
      | Some _ => Raised OutOfModel
      | None => Ok false
      end
  | _ => Raised AttributeError
  end.

(** The body of the loop over the records of the JSON file.  The fields of
    an entry have the types the dataclass declares; a record with a value
    of another type for [idx], [text] or a flag is outside the model. *)
Definition entry_of_json (chosen_path : Path) (entry : json) : result WavAndTranscript :=
  match subscript entry (u "filename") with
  | Raised e => Raised e
  | Ok (JStr filename) =>
      let wavewpath := joinpath chosen_path [u "wavs"; filename ++ u ".wav"] in
      match subscript entry (u "idx") with
      | Raised e => Raised e
      | Ok (JInt i) =>
          match subscript entry (u "text") with
          | Raised e => Raised e
          | Ok (JStr text) =>
              match get_flag entry (u "pending_review") with
              | Raised e => Raised e
              | Ok pending =>
                  match get_flag entry (u "deleted") with
                  | Raised e => Raised e
                  | Ok del => Ok (mkEntry i wavewpath text pending del)
                  end
              end
          | Ok _ => Raised OutOfModel
          end
      | Ok _ => Raised OutOfModel
      end
  | Ok _ => Raised TypeError
  end.

Fixpoint entries_of_json (chosen_path : Path) (items : list json)
  : result (list WavAndTranscript) :=
  match items with
  | [] => Ok []
  | entry :: items' =>
      match entry_of_json chosen_path entry with
      | Raised e => Raised e
      | Ok o =>
          match entries_of_json chosen_path items' with
          | Raised e => Raised e
          | Ok os => Ok (o :: os)
          end
      end
  end.

Definition lift {A : Type} (r : result A) : M A :=
  match r with
  | Ok a => mret a
  | Raised e => raise e
  end.

(** The body of the loop over the rows of the CSV file: empty rows are
    skipped, and still counted by [enumerate]. *)
Definition entries_of_rows (chosen_path : Path) (rows : list (list str))
  : list WavAndTranscript :=
  flat_map (fun ir : Z * list str =>
              match snd ir with
              | [] => []
              | first :: _ =>
                  [mkEntry (fst ir)
                           (joinpath chosen_path [u "wavs"; first ++ u ".wav"])
                           (List.last (snd ir) [])
                           false false]
              end)
           (enumerate rows).

(** Reading [.last_idx]: [None] when the file is missing or does not hold
    an integer, the two failures the handler passes over. *)
Definition read_history (p : Path) : M (option Z) :=
  c ← gets (fun w => files (disk w) !! p);
  isdir ← gets (fun w => bool_decide (p ∈ dirs (disk w)));
  match c with
  | Some (FText s) => mret (py_int s)
  | Some (FJson (JInt z)) => mret (Some z)
  | Some (FJson _) => mret None
  | None => if isdir : bool then raise (OSError p) else mret None
  end.

(** The part of [onOpen] that reads the entries from the chosen file and
    creates them. *)
Definition load_objects (chosen_path metadata_file : Path) : M (list loc) :=
  if str_eqb (suffix metadata_file) (u ".json") then
    _ ← modify_win (set__is_source_csv false);
    doc ← json_load metadata_file;
    items ← lift (iterate doc);
    os ← lift (entries_of_json chosen_path items);
    allocate os
  else
    _ ← modify_win (set__is_source_csv true);
    rows ← csv_load metadata_file;
    allocate (entries_of_rows chosen_path rows).

(** The part of [onOpen] after the entries are there: they are sorted,
    become the session and are shown, and the focus of the previous session
    is restored. *)
Definition show_session (chosen_path : Path) (objs : list loc) : M unit :=
  h ← gets heap;
  let objs := sort_by (attr_idx h) objs in
  _ ← modify_win (set__objects (Some objs));
  _ ← modify_win (set__dataset_dir (Some chosen_path));
  _ ← wavList_set_objects objs;
  history ← read_history (joinpath chosen_path [u ".last_idx"]);
  _ ← match history with
      | Some idx_to_select => wavList_set_focused_item idx_to_select
      | None => mret tt
      end;
  set_title false.

(** [onOpen]: [chosen_dir] is what the directory selector returned and
    [reload] the answer to the question about previous edits, if asked. *)
Definition onOpen (chosen_dir : str) (reload : answer) : M unit :=
  if str_eqb chosen_dir [] then mret tt
  else
    found ← path_exists (parse_path chosen_dir);
    if negb found then wx_MessageBox DIRECTORY_NOT_FOUND
    else
      let chosen_path := parse_path chosen_dir in
      let metadata_file := joinpath chosen_path [u "metadata.csv"] in
      has_csv ← is_file metadata_file;
      if negb has_csv then wx_MessageBox NO_METADATA_CSV
      else
        let edited_metadata := joinpath chosen_path [EDITED_METADATA_FILENAME] in
        has_edits ← is_file edited_metadata;
        metadata_file ←
          (if has_edits : bool then
             retval ← wx_MessageBox_YES_NO PREVIOUS_EDITS_FOUND reload;
             mret (match retval with YES => edited_metadata | NO => metadata_file end)
           else mret metadata_file);
        objs ← load_objects chosen_path metadata_file;
        show_session chosen_path objs.

(** *** Editing the focused entry *)

(** [onTextChanged]: [text] is the new content of the text box. *)
Definition onTextChanged (text : str) : M unit :=
  utterance ← wavList_get_selected;
  match utterance with
  | None => mret tt
  | Some l =>
      o ← gets (fun w => heap w !! l);
      match o with
      | None => mret tt
      | Some o =>
          _ ← mutate l (fun o => fst (edit_transcript text o));
          let has_changes := snd (edit_transcript text o) in
          if has_changes : bool then set_title true else mret tt
      end
  end.

(** [onEdit]: toggle the pending-review flag. *)
Definition onEdit : M unit :=
  utterance ← wavList_get_selected;
  _ ← match utterance with
      | None => mret tt
      | Some l =>
          _ ← mutate l (fun o => with_pending_review (negb (pending_review o)) o);
          now_pending ← gets (fun w => attr (heap w) pending_review l);
          _ ← (if now_pending : bool then play_file ALERT_SOUND else mret tt);
          set_title true
      end;
  wx_Bell.

(** [onDelete]: toggle the deleted flag. *)
Definition onDelete : M unit :=
  utterance ← wavList_get_selected;
  _ ← match utterance with
      | None => mret tt
      | Some l =>
          _ ← mutate l (fun o => with_deleted (negb (deleted o)) o);
          now_deleted ← gets (fun w => attr (heap w) deleted l);
          _ ← (if now_deleted : bool then play_file ALERT_SOUND else mret tt);
          set_title true
      end;
  wx_Bell.

(** [onNextItem] and [onPrevItem], without automatic playback. *)
Definition onNextItem : M unit :=
  selected_idx ← GetFocusedItem;
  if selected_idx =? NOT_FOUND then wx_Bell
  else
    next_item_idx ← gets (fun w => LV.next_below selected_idx (wavList (win w)));
    if next_item_idx =? NOT_FOUND then wx_Bell
    else _ ← wavList_set_focused_item next_item_idx; play_file NAV_SOUND.

Definition onPrevItem : M unit :=
  selected_idx ← GetFocusedItem;
  if selected_idx =? NOT_FOUND then wx_Bell
  else
    prev_item_idx ← gets (fun w => LV.next_above selected_idx (wavList (win w)));
    if prev_item_idx =? NOT_FOUND then wx_Bell
    else _ ← wavList_set_focused_item prev_item_idx; play_file NAV_SOUND.

(** *** Saving and exporting *)

(** [save(play_sound)]: [overwrite] is the answer to the question about
    existing edits, if asked. *)
Definition save (play_sound : bool) (overwrite : answer) : M bool :=
  dirty ← has_unsaved_edits;
  if negb dirty then _ ← wx_Bell; mret false
  else
    dir ← dataset_dir;
    let edited_metadata := joinpath dir [EDITED_METADATA_FILENAME] in
    is_source_csv ← gets (fun w => _is_source_csv (win w));
    existing ← path_exists edited_metadata;
    retval ←
      (if is_source_csv && existing then
         wx_MessageBox_YES_NO POSSIBLE_DATA_LOSS overwrite
       else mret YES);
    match retval with
    | NO => mret false
    | YES =>
        objs ← session_objects;
        h ← gets heap;
        let entries := List.map asdict (deref h objs) in
        let entries := sort_by itemgetter_idx entries in
        _ ← write_file edited_metadata (FJson (JArr (List.map JObj entries)));
        _ ← set_title false;
        _ ← (if play_sound then play_file SAVE_SOUND else mret tt);
        selected_idx ← GetFocusedItem;
        _ ← (if negb (selected_idx =? NOT_FOUND) then
               let history_file := joinpath dir [u ".last_idx"] in
               write_file history_file (FText (str_of_Z selected_idx))
             else mret tt);
        mret true
    end.

(** [onSave]: the message of success reads the variable
    [edited_metadata]. *)
Definition onSave (overwrite : answer) : M unit :=
  saved ← save false overwrite;
  if saved : bool then
    _ ← load_name onSave_locals "edited_metadata";
    wx_MessageBox SAVE_SUCCESS
  else mret tt.

(** The rows of the export. *)
Definition export_rows (os : list WavAndTranscript) : list (list str) :=
  List.map (fun obj => [stem (wavpath obj); []; strip (transcript obj)])
           (List.filter (fun obj => negb (deleted obj)) os).

(** [onExportCSV]: [export_anyway] is the answer to the question about
    entries pending review, if asked. *)
Definition onExportCSV (overwrite export_anyway : answer) : M unit :=
  _ ← save false overwrite;
  objs ← session_objects;
  h ← gets heap;
  let has_pending_review := existsb pending_review (deref h objs) in
  retval ←
    (if has_pending_review then
       wx_MessageBox_YES_NO PENDING_REVIEW export_anyway
     else mret YES);
  match retval with
  | NO => mret tt
  | YES =>
      dir ← dataset_dir;
      match with_suffix (joinpath dir [EDITED_METADATA_FILENAME]) (u ".csv") with
      | None => raise ValueError
      | Some csv_filename =>
          h ← gets heap;
          _ ← write_file csv_filename (FText (csv_writerows (export_rows (deref h objs))));
          wx_MessageBox EXPORT_SUCCESS
      end
  end.

(** *** Filters *)

Definition clear_deletedBtn : M unit :=
  modify_win (fun m => if deletedBtn m then set_deletedBtn false m else m).

Definition clear_pendingReviewBtn : M unit :=
  modify_win (fun m => if pendingReviewBtn m then set_pendingReviewBtn false m else m).

Definition clear_searchBtn : M unit :=
  modify_win (fun m => if searchBtn m then set_searchBtn false m else m).

(** [onFilterSearch]: [search_string] and [is_regex] are what the search
    dialog returned (the empty string and [False] when it was cancelled). *)
Definition onFilterSearch (E : regex_engine) (search_string : str) (is_regex : bool) : M unit :=
  _ ← clear_deletedBtn;
  _ ← clear_pendingReviewBtn;
  searching ← gets (fun w => searchBtn (win w));
  if searching : bool then
    if str_eqb search_string [] then
      _ ← modify_win (set_searchBtn false);
      wx_Bell
    else
      h ← gets heap;
      shown ← gets (fun w => LV._objects (wavList (win w)));
      matching ←
        (if is_regex then
           match re_compile E search_string with
           | None => mret None
           | Some reg =>
               mret (Some (List.filter (attr h (fun o => re_match E reg (transcript o))) shown))
           end
         else
           mret (Some (List.filter (attr h (fun o => contains (transcript o) search_string)) shown)));
      match matching with
      | None =>
          _ ← modify_win (set_searchBtn false);
          wx_MessageBox INVALID_REGEX
      | Some [] =>
          _ ← wx_MessageBox NO_MATCHES;
          modify_win (set_searchBtn false)
      | Some objs => wavList_set_objects objs
      end
  else
    objs ← session_objects;
    wavList_set_objects objs.

(** [onFilterPendingReview] *)
Definition onFilterPendingReview : M unit :=
  _ ← clear_searchBtn;
  _ ← clear_deletedBtn;
  active ← gets (fun w => pendingReviewBtn (win w));
  objs ← session_objects;
  h ← gets heap;
  let objs := if active : bool then List.filter (attr h pending_review) objs else objs in
  wavList_set_objects objs.

(** [onFilterDeleted] *)
Definition onFilterDeleted : M unit :=
  _ ← clear_searchBtn;
  _ ← clear_pendingReviewBtn;
  active ← gets (fun w => deletedBtn (win w));
  objs ← session_objects;
  h ← gets heap;
  let objs := if active : bool then List.filter (attr h deleted) objs else objs in
  wavList_set_objects objs.

(** A click on a toggle button flips it and then runs its handler; the
    accelerator of the search runs the handler alone. *)
Definition click_searchBtn (E : regex_engine) (search_string : str) (is_regex : bool) : M unit :=
  _ ← modify_win (fun m => set_searchBtn (negb (searchBtn m)) m);
  onFilterSearch E search_string is_regex.

Definition click_pendingReviewBtn : M unit :=
  _ ← modify_win (fun m => set_pendingReviewBtn (negb (pendingReviewBtn m)) m);
  onFilterPendingReview.

Definition click_deletedBtn : M unit :=
  _ ← modify_win (fun m => set_deletedBtn (negb (deletedBtn m)) m);
  onFilterDeleted.

(** *** The search dialog *)

(** How a dialog was closed. *)
Inductive dialog_code : Type := ID_OK | ID_CANCEL.

(** [SearchWindow.ShowModal]: [ret] is what showing the dialog returned,
    [text] and [regex_checked] what its text box and its check box held
    when it closed.  The result is what [onFilterSearch] takes as
    [search_string] and [is_regex]. *)
Definition SearchWindow_ShowModal (ret : dialog_code) (text : str) (regex_checked : bool)
  : str * bool :=
  match ret with
  | ID_CANCEL => ([], false)
  | ID_OK => (text, regex_checked)
  end.

(** *** Closing the dataset *)

Definition UNSAVED_EDITS : ui_event :=
  MessageBox "You have some unsaved edits.\nWould you like to save them?" "Warning".

(** [transcriptTextCtrl.SetValue(text)]: the content of the text box is not
    part of the world; setting it sends the text event, which the window
    binds to [onTextChanged]. *)
Definition transcriptTextCtrl_SetValue (text : str) : M unit := onTextChanged text.

(** [onCloseDataset]: [save_first] is the answer to the question about
    unsaved edits and [overwrite] the answer to the question [save] may
    ask.  What [save] returns is not looked at. *)
Definition onCloseDataset (save_first overwrite : answer) : M unit :=
  dirty ← has_unsaved_edits;
  _ ← (if dirty : bool then
         retval ← wx_MessageBox_YES_NO UNSAVED_EDITS save_first;
         match retval with
         | YES => _ ← save true overwrite; mret tt
         | NO => mret tt
         end
       else mret tt);
  _ ← transcriptTextCtrl_SetValue [];
  _ ← modify_win (set__objects None);
  _ ← modify_win (set__dataset_dir None);
  _ ← wavList_set_objects [];
  set_title false.

(** ** The script [deduplicate.py]

    Only the preparation of the sentences is modelled: the fuzzy matching
    that follows is done by a library outside the repository. *)

(** [str.maketrans("", "", z)]: a table that maps every character of [z]
    to [None]. *)
Definition maketrans_delete (z : str) : gmap N (option N) :=
  list_to_map (List.map (fun c => (c, None)) z).

(** [s.translate(table)]: a character mapped to [None] is dropped, a
    character the table does not hold is kept. *)
Definition translate (table : gmap N (option N)) (s : str) : str :=
  flat_map (fun c => match table !! c with
                     | Some (Some d) => [d]
                     | Some None => []
                     | None => [c]
                     end) s.

(** The eight Arabic marks of the script: shadda, sukun, fatha, fathatan,
    damma, dammatan, kasra, kasratan. *)
Definition DIACS : gmap N (option N) :=
  maketrans_delete [1617; 1618; 1614; 1611; 1615; 1612; 1616; 1613]%N.

Definition clean_diacritics (s : str) : str := translate DIACS s.

(** * Vocabulary of the properties *)

(** ** Order by a key *)

Definition le_by {A : Type} (key : A -> Z) (a b : A) : Prop := key a <= key b.

(** ** Paths of a dataset directory *)

(** A single component: not empty, not a dot, without a slash. *)
Definition plain (c : str) : Prop := is_component c = true /\ ~ In slash c.

(** The path of the entry [c] of the directory [dir]. *)
Definition child (dir : Path) (c : str) : Path := mkPath (root dir) (parts dir ++ [c]).

(** The file of the saved edits, the file of the export and the file of
    the history, for a dataset directory. *)
Definition json_file (dir : Path) : Path := joinpath dir [EDITED_METADATA_FILENAME].
Definition csv_file (dir : Path) : Path := child dir (u "metadata.edited.csv").
Definition history_file (dir : Path) : Path := joinpath dir [u ".last_idx"].

(** A stem that can be written to the file of the edits and read back. *)
Definition good_stem (s : str) : Prop := s <> [] /\ ~ In slash s.

(** A path made by the loader. *)
Definition loaded_path (p : Path) : Prop :=
  exists base filename, p = joinpath base [u "wavs"; filename ++ u ".wav"].

(** ** Sessions *)

(** The entries of the session, in the order of the collection. *)
Definition entries (w : World) (objs : list loc) : list WavAndTranscript :=
  deref (heap w) objs.

(** The entries of the list on display. *)
Definition view (w : World) : list loc := LV._objects (wavList (win w)).

(** References that all lead to an object. *)
Definition valid_refs (h : list WavAndTranscript) (ls : list loc) : Prop :=
  Forall (fun l => is_Some (h !! l)) ls.

(** How many of the three filter buttons are on. *)
Definition active_filters (w : World) : nat :=
  (if searchBtn (win w) then 1 else 0) + (if pendingReviewBtn (win w) then 1 else 0)
  + (if deletedBtn (win w) then 1 else 0).

(** A computation leaves an observation of the world as it was. *)
Definition preserved {X A : Type} (f : World -> X) (m : M A) : Prop :=
  forall w, f (snd (m w)) = f w.

(** A computation keeps a property of the world, however it ends. *)
Definition keeps {A : Type} (P : World -> Prop) (m : M A) : Prop :=
  forall w, P w -> P (snd (m w)).

(** ** Outcomes of saving and exporting *)

(** The records [save] writes for these entries. *)
Definition saved_records (os : list WavAndTranscript) : list (list (str * json)) :=
  sort_by itemgetter_idx (List.map asdict os).

Definition saved_doc (os : list WavAndTranscript) : content :=
  FJson (JArr (List.map JObj (saved_records os))).

(** Whether [save] asks before overwriting. *)
Definition overwrite_asked (dir : Path) (w : World) : bool :=
  _is_source_csv (win w) &&
  (bool_decide (is_Some (files (disk w) !! json_file dir))
   || bool_decide (json_file dir ∈ dirs (disk w))).

Definition is_NO (a : answer) : bool := match a with NO => true | YES => false end.

Definition retitle (dirty : bool) (w : World) : World :=
  set_win (SetTitle (make_title (_dataset_dir (win w)) dirty) (win w)) w.

(** What [save] does on a session with unsaved edits, case by case. *)
Definition save_outcome (play_sound : bool) (overwrite : answer) (dir : Path)
    (objs : list loc) (w : World) : result bool * World :=
  let w1 := if overwrite_asked dir w then emit POSSIBLE_DATA_LOSS w else w in
  if overwrite_asked dir w && is_NO overwrite then (Ok false, w1)
  else if bool_decide (json_file dir ∈ readonly (disk w)) then
    (Raised (OSError (json_file dir)), w1)
  else
    let w2 := retitle false (put_file (json_file dir) (saved_doc (entries w objs)) w1) in
    let w3 := if play_sound then emit (Play SAVE_SOUND) w2 else w2 in
    let i := LV.FocusedItem (wavList (win w)) in
    if i =? NOT_FOUND then (Ok true, w3)
    else if bool_decide (history_file dir ∈ readonly (disk w)) then
      (Raised (OSError (history_file dir)), w3)
    else (Ok true, put_file (history_file dir) (FText (str_of_Z i)) w3).

(** What [onExportCSV] does once [save] has returned, case by case. *)
Definition export_outcome (export_anyway : answer) (dir : Path) (objs : list loc)
    (w1 : World) : result unit * World :=
  let has_pending_review := existsb pending_review (entries w1 objs) in
  let w2 := if has_pending_review then emit PENDING_REVIEW w1 else w1 in
  if has_pending_review && is_NO export_anyway then (Ok tt, w2)
  else if bool_decide (csv_file dir ∈ readonly (disk w1)) then
    (Raised (OSError (csv_file dir)), w2)
  else
    (Ok tt,
     emit EXPORT_SUCCESS
       (put_file (csv_file dir) (FText (csv_writerows (export_rows (entries w1 objs)))) w2)).


(** ** Outcome of opening *)

(** The chosen directory exists. *)
Definition dir_found (chosen_dir : str) (w : World) : bool :=
  bool_decide (is_Some (files (disk w) !! parse_path chosen_dir))
  || bool_decide (parse_path chosen_dir ∈ dirs (disk w)).

(** Saved edits exist, and the question about them once it was asked. *)
Definition has_edits (dir : Path) (w : World) : bool :=
  bool_decide (is_Some (files (disk w) !! json_file dir)).

Definition asked_to_reload (dir : Path) (w : World) : World :=
  if has_edits dir w then emit PREVIOUS_EDITS_FOUND w else w.

(** The row recorded in [.last_idx], if the file holds one. *)
Definition history_of (dir : Path) (w : World) : option Z :=
  match files (disk w) !! history_file dir with
  | Some (FText s) => py_int s
  | Some (FJson (JInt z)) => Some z
  | _ => None
  end.

(** [.last_idx] can be read or is simply missing: it is not a directory. *)
Definition history_readable (dir : Path) (w : World) : Prop :=
  files (disk w) !! history_file dir = None -> history_file dir ∉ dirs (disk w).

(** The list view showing [objs], with the recorded row focused. *)
Definition shown (history : option Z) (objs : list loc) (v : LV.t) : LV.t :=
  let v := LV.set_objects objs v in
  match history with
  | Some i => LV.set_focused_item i v
  | None => v
  end.

(** The world after [onOpen] has read the entries [os]. *)
Definition opened (chosen_path : Path) (source_csv : bool) (os : list WavAndTranscript)
    (w : World) : World :=
  let h := heap w ++ os in
  let objs := sort_by (attr_idx h) (seq (length (heap w)) (length os)) in
  mkWorld h
    (mkWindow (Some objs) (Some chosen_path) source_csv (make_title (Some chosen_path) false)
       (searchBtn (win w)) (pendingReviewBtn (win w)) (deletedBtn (win w))
       (shown (history_of chosen_path w) objs (wavList (win w))))
    (disk w) (ui w).

(** ** Records written and read back *)

(** The entry read back from the record [asdict] made of [o]. *)
Definition reloaded (dir : Path) (o : WavAndTranscript) : WavAndTranscript :=
  mkEntry (idx o) (joinpath dir [u "wavs"; stem (wavpath o) ++ u ".wav"])
          (transcript o) (pending_review o) (deleted o).

(** A document written by [save] for entries made by the loader. *)
Definition produced_by_save (doc : json) : Prop :=
  exists os, Forall (fun o => loaded_path (wavpath o)) os
             /\ doc = JArr (List.map JObj (saved_records os)).

(** ** Searching *)


(** ** The worlds the program can reach *)

(** The world when the program starts on a given disk. *)
Definition fresh (d : FileSystem) : World := mkWorld [] MainWindow_init d [].

(** What the user can do to the session.  Playing the audio of an entry,
    the volume, the text direction and the help box do not act on it and
    are left out; so is closing the window, which ends the program. *)
Inductive action : Type :=
  | Open (chosen_dir : str) (reload : answer)
  | TextChanged (text : str)
  | ToggleReview
  | ToggleDeleted
  | NextItem
  | PrevItem
  | SaveShortcut (overwrite : answer)
  | SaveButton (overwrite : answer)
  | ExportCSV (overwrite export_anyway : answer)
  | ClickSearch (search_string : str) (is_regex : bool)
  | SearchShortcut (search_string : str) (is_regex : bool)
  | ClickPendingReview
  | ClickDeleted
  | CloseDataset (save_first overwrite : answer).

Definition perform (E : regex_engine) (a : action) : M unit :=
  match a with
  | Open chosen_dir reload => onOpen chosen_dir reload
  | TextChanged text => onTextChanged text
  | ToggleReview => onEdit
  | ToggleDeleted => onDelete
  | NextItem => onNextItem
  | PrevItem => onPrevItem
  | SaveShortcut overwrite => _ ← save true overwrite; mret tt
  | SaveButton overwrite => onSave overwrite
  | ExportCSV overwrite export_anyway => onExportCSV overwrite export_anyway
  | ClickSearch search_string is_regex => click_searchBtn E search_string is_regex
  | SearchShortcut search_string is_regex => onFilterSearch E search_string is_regex
  | ClickPendingReview => click_pendingReviewBtn
  | ClickDeleted => click_deletedBtn
  | CloseDataset save_first overwrite => onCloseDataset save_first overwrite
  end.

(** The worlds the program can be in: started on some disk, then any
    number of actions, each ending normally or with an error. *)
Inductive reachable (E : regex_engine) : World -> Prop :=
  | reach_fresh (d : FileSystem) : reachable E (fresh d)
  | reach_step (a : action) (w : World) :
      reachable E w -> reachable E (snd (perform E a w)).

(** What holds of the session in every such world. *)
Definition session_inv (w : World) : Prop :=
  Forall (fun o => loaded_path (wavpath o)) (heap w)
  /\ match _objects (win w) with
     | Some objs =>
         valid_refs (heap w) objs
         /\ Sorted (le_by (attr_idx (heap w))) objs
         /\ sublist (view w) objs
     | None => view w = []
     end.

(** The part of the world the invariant looks at, but for the view. *)
Definition shape (w : World) : list Z * list Path * option (list loc) :=
  (List.map idx (heap w), List.map wavpath (heap w), _objects (win w)).

(** The view of [w'] is taken from the view of [w] or from its
    collection. *)
Definition view_from (w w' : World) : Prop :=
  sublist (view w') (view w)
  \/ exists objs, _objects (win w) = Some objs /\ sublist (view w') objs.

(** ** Example datasets *)

Definition run {A : Type} (m : M A) (w : World) : World := snd (m w).

Definition data : Path := parse_path (u "/data").

Definition example_csv : str := u "a|x|hello" ++ [LF] ++ u "b|x|world" ++ [LF].

(** A directory with a [metadata.csv] of two rows. *)
Definition disk_csv : FileSystem :=
  mkFS {[ child data (u "metadata.csv") := FText example_csv ]} {[ data ]} ∅.

(** The dataset opened, the second row focused and its transcript edited. *)
Definition w_loaded : World := run (onOpen (u "/data") YES) (fresh disk_csv).
Definition w_edited : World := run (onTextChanged (u "world!")) (run onNextItem w_loaded).

(** The same directory, where [.last_idx] cannot be written. *)
Definition disk_csv_locked : FileSystem :=
  mkFS {[ child data (u "metadata.csv") := FText example_csv ]} {[ data ]}
       {[ child data (u ".last_idx") ]}.

Definition w_edited_locked : World :=
  run (onTextChanged (u "world!"))
      (run onNextItem (run (onOpen (u "/data") YES) (fresh disk_csv_locked))).

(** A record of the file of the edits. *)
Definition record (i : Z) (filename text : str) (pending del : bool) : json :=
  JObj [ (u "idx", JInt i); (u "filename", JStr filename); (u "text", JStr text);
         (u "pending_review", JBool pending); (u "deleted", JBool del) ].

(** A directory with saved edits: two records with the indices 5 and 7, the
    second one pending review. *)
Definition disk_edits : FileSystem :=
  mkFS {[ child data (u "metadata.csv") := FText example_csv;
          child data (u "metadata.edited.json") :=
            FJson (JArr [ record 5 (u "a") (u "hello world") false false;
                          record 7 (u "b") (u "say hello") true false ]) ]}
       {[ data ]} ∅.

(** The saved edits reloaded. *)
Definition w_reloaded : World := run (onOpen (u "/data") YES) (fresh disk_edits).


(** The directory with the edits, opened from [metadata.csv] (the user
    declines to reload the edits) and edited. *)
Definition w_edited_beside_edits : World :=
  run (onTextChanged (u "hello!")) (run (onOpen (u "/data") NO) (fresh disk_edits)).

(** A directory that holds saved edits and no [metadata.csv]. *)
Definition disk_only_edits : FileSystem :=
  mkFS {[ child data (u "metadata.edited.json") :=
            FJson (JArr [ record 0 (u "a") (u "hello") false false ]) ]}
       {[ data ]} ∅.

(** A directory with saved edits where the only entry pending review is
    deleted. *)
Definition disk_deleted_pending : FileSystem :=
  mkFS {[ child data (u "metadata.csv") := FText example_csv;
          child data (u "metadata.edited.json") :=
            FJson (JArr [ record 0 (u "a") (u "hello") false false;
                          record 1 (u "b") (u "world") true true ]) ]}
       {[ data ]} ∅.

Definition w_deleted_pending : World :=
  run (onOpen (u "/data") YES) (fresh disk_deleted_pending).


(** * Properties *)

(** ** Strings *)

Lemma chr_eqb_eq (a b : N) : chr_eqb a b = true <-> a = b.
Proof. unfold chr_eqb. apply N.eqb_eq. Qed.

Lemma chr_eqb_refl (a : N) : chr_eqb a a = true.
Proof. apply chr_eqb_eq. reflexivity. Qed.

Lemma str_eqb_eq (a b : str) : str_eqb a b = true <-> a = b.
Proof.
  revert b. induction a as [|x a IH]; intros [|y b]; simpl; try easy.
  rewrite andb_true_iff, chr_eqb_eq, IH. split.
  - intros [-> ->]. reflexivity.
  - intros [= -> ->]. easy.
Qed.

Lemma str_eqb_refl (a : str) : str_eqb a a = true.
Proof. apply str_eqb_eq. reflexivity. Qed.

Lemma str_eqb_neq (a b : str) : str_eqb a b = false <-> a <> b.
Proof.
  rewrite <- str_eqb_eq. destruct (str_eqb a b); split; congruence.
Qed.

Lemma startswith_spec (s p : str) :
  startswith s p = true <-> exists rest, s = p ++ rest.
Proof.
  revert s. induction p as [|c p IH]; intros s; simpl.
  - split; [intros _; exists s; reflexivity | intros _; destruct s; reflexivity].
  - destruct s as [|d s].
    + split; [discriminate | intros [rest [=]]].
    + simpl. rewrite andb_true_iff, chr_eqb_eq, IH. split.
      * intros [-> [rest ->]]. exists rest. reflexivity.
      * intros [rest [= -> ->]]. split; [reflexivity | exists rest; reflexivity].
Qed.


(** ** Sorting *)

Section SortFacts.
Context {A : Type} (key : A -> Z).


Lemma insert_by_perm (x : A) (l : list A) : Permutation (insert_by key x l) (x :: l).
Proof.
  induction l as [|y l IH]; simpl.
  - reflexivity.
  - destruct (key x <=? key y).
    + reflexivity.
    + rewrite IH. apply perm_swap.
Qed.

Lemma sort_by_perm (l : list A) : Permutation (sort_by key l) l.
Proof.
  induction l as [|x l IH]; simpl.
  - reflexivity.
  - rewrite insert_by_perm. constructor. exact IH.
Qed.

Lemma insert_by_hd (x a : A) (l : list A) :
  key a <= key x -> HdRel (le_by key) a l -> HdRel (le_by key) a (insert_by key x l).
Proof.
  intros Hax Hl. destruct l as [|y l]; simpl.
  - constructor. exact Hax.
  - destruct (key x <=? key y); constructor.
    + exact Hax.
    + inversion Hl. assumption.
Qed.

Lemma insert_by_sorted (x : A) (l : list A) :
  Sorted (le_by key) l -> Sorted (le_by key) (insert_by key x l).
Proof.
  induction 1 as [|y l Hs IH Hhd]; simpl.
  - repeat constructor.
  - destruct (key x <=? key y) eqn:E.
    + constructor; [constructor; assumption|]. constructor.
      unfold le_by. lia.
    + constructor; [exact IH|]. apply insert_by_hd; [lia | exact Hhd].
Qed.

Lemma sort_by_sorted (l : list A) : Sorted (le_by key) (sort_by key l).
Proof.
  induction l as [|x l IH]; simpl.
  - constructor.
  - apply insert_by_sorted. exact IH.
Qed.

(** Sorting a sorted list leaves it as it is. *)
Lemma sort_by_sorted_id (l : list A) : Sorted (le_by key) l -> sort_by key l = l.
Proof.
  induction 1 as [|x l Hs IH Hhd]; simpl.
  - reflexivity.
  - rewrite IH. destruct Hhd as [|y l' Hxy]; simpl.
    + reflexivity.
    + unfold le_by in Hxy. destruct (key x <=? key y) eqn:E; [reflexivity | lia].
Qed.

Lemma sort_by_idem (l : list A) : sort_by key (sort_by key l) = sort_by key l.
Proof. apply sort_by_sorted_id, sort_by_sorted. Qed.

Lemma sort_by_length (l : list A) : length (sort_by key l) = length l.
Proof. apply Permutation_length, sort_by_perm. Qed.
End SortFacts.

Lemma insert_by_map {A B : Type} (key : A -> Z) (f : B -> A) (x : B) (l : list B) :
  insert_by key (f x) (List.map f l) = List.map f (insert_by (fun b => key (f b)) x l).
Proof.
  induction l as [|y l IH]; simpl.
  - reflexivity.
  - destruct (key (f x) <=? key (f y)); simpl; [reflexivity | rewrite IH; reflexivity].
Qed.

Lemma sort_by_map {A B : Type} (key : A -> Z) (f : B -> A) (l : list B) :
  sort_by key (List.map f l) = List.map f (sort_by (fun b => key (f b)) l).
Proof.
  induction l as [|x l IH]; simpl.
  - reflexivity.
  - rewrite IH. apply insert_by_map.
Qed.

Lemma sort_by_ext {A : Type} (k1 k2 : A -> Z) (l : list A) :
  (forall x, k1 x = k2 x) -> sort_by k1 l = sort_by k2 l.
Proof.
  intros H. induction l as [|x l IH]; simpl; [reflexivity|].
  rewrite IH. generalize (sort_by k2 l). intros m.
  induction m as [|y m IHm]; simpl; [reflexivity|].
  rewrite !H, IHm. reflexivity.
Qed.

Lemma Sorted_map {A B : Type} (key : A -> Z) (f : B -> A) (l : list B) :
  Sorted (le_by (fun b => key (f b))) l -> Sorted (le_by key) (List.map f l).
Proof.
  induction 1 as [|x l Hs IH Hhd]; simpl; constructor.
  - exact IH.
  - destruct Hhd; simpl; constructor. assumption.
Qed.

(** ** Paths *)

Lemma split_no_sep (sep : N) (s : str) : ~ In sep s -> split sep s = [s].
Proof.
  induction s as [|c s IH]; simpl; intros H.
  - reflexivity.
  - destruct (chr_eqb c sep) eqn:E.
    + apply chr_eqb_eq in E. tauto.
    + rewrite IH by tauto. reflexivity.
Qed.

Lemma splitroot_no_slash (s : str) : ~ In slash s -> splitroot s = [].
Proof.
  destruct s as [|c s]; simpl; intros H; [reflexivity|].
  destruct (chr_eqb c slash) eqn:E; [|reflexivity].
  apply chr_eqb_eq in E. tauto.
Qed.

Lemma parse_path_plain (c : str) : plain c -> parse_path c = mkPath [] [c].
Proof.
  intros [Hc Hs]. unfold parse_path.
  rewrite splitroot_no_slash, split_no_sep by assumption.
  simpl. rewrite Hc. reflexivity.
Qed.

Lemma joinpath_plain (dir : Path) (c : str) : plain c -> joinpath dir [c] = child dir c.
Proof.
  intros H. unfold joinpath. cbn [fold_left]. unfold join1.
  rewrite parse_path_plain by assumption. reflexivity.
Qed.

Lemma plain_literal (c : str) :
  is_component c = true -> forallb (fun x => negb (chr_eqb x slash)) c = true -> plain c.
Proof.
  intros Hc Hs. split; [exact Hc|]. intros Hin.
  rewrite forallb_forall in Hs. specialize (Hs _ Hin).
  rewrite chr_eqb_refl in Hs. discriminate.
Qed.

Lemma edited_metadata_path (dir : Path) :
  joinpath dir [EDITED_METADATA_FILENAME] = child dir (u "metadata.edited.json").
Proof. apply joinpath_plain, plain_literal; reflexivity. Qed.

Lemma metadata_csv_path (dir : Path) :
  joinpath dir [u "metadata.csv"] = child dir (u "metadata.csv").
Proof. apply joinpath_plain, plain_literal; reflexivity. Qed.

Lemma history_path (dir : Path) :
  joinpath dir [u ".last_idx"] = child dir (u ".last_idx").
Proof. apply joinpath_plain, plain_literal; reflexivity. Qed.

Lemma name_child (dir : Path) (c : str) : name (child dir c) = c.
Proof. unfold name, child. simpl. apply last_last. Qed.

Lemma child_inj (dir : Path) (a b : str) : child dir a = child dir b -> a = b.
Proof.
  unfold child. intros [= H]. apply app_inj_tail in H. tauto.
Qed.

(** The export goes to [metadata.edited.csv] next to the saved edits. *)
Lemma export_path (dir : Path) :
  with_suffix (joinpath dir [EDITED_METADATA_FILENAME]) (u ".csv")
  = Some (child dir (u "metadata.edited.csv")).
Proof.
  rewrite edited_metadata_path. unfold with_suffix.
  rewrite name_child. unfold child. simpl parts. rewrite removelast_last.
  reflexivity.
Qed.

Lemma rfind_app (c : N) (a b : str) :
  rfind c (a ++ b) =
  match rfind c b with
  | Some i => Some (length a + i)%nat
  | None => rfind c a
  end.
Proof.
  induction a as [|d a IH]; simpl.
  - destruct (rfind c b); reflexivity.
  - rewrite IH. destruct (rfind c b); reflexivity.
Qed.

(** The stem of a name that ends in [.wav]. *)
Lemma stem_wav (p : Path) (t : str) :
  name p = t ++ u ".wav" ->
  stem p = match t with [] => u ".wav" | _ => t end.
Proof.
  intros Hn. unfold stem, suffix_dot. rewrite Hn, rfind_app.
  change (rfind dot (u ".wav")) with (Some 0%nat).
  rewrite length_app. change (length (u ".wav")) with 4%nat.
  destruct t as [|c t].
  - reflexivity.
  - replace ((0 <? length (c :: t) + 0)%nat) with true
      by (symmetry; apply Nat.ltb_lt; simpl; lia).
    replace ((length (c :: t) + 0 <? length (c :: t) + 4 - 1)%nat) with true
      by (symmetry; apply Nat.ltb_lt; simpl; lia).
    cbn [andb]. rewrite Nat.add_0_r.
    rewrite take_app_length. reflexivity.
Qed.

Lemma split_last (sep : N) (a b : str) :
  ~ In sep b ->
  exists init t, split sep (a ++ b) = init ++ [t ++ b] /\ ~ In sep t.
Proof.
  intros Hb. induction a as [|c a (init & t & IH & Ht)]; simpl.
  - exists [], []. rewrite split_no_sep by assumption. split; [reflexivity | easy].
  - destruct (chr_eqb c sep) eqn:E.
    + exists ([] :: init), t. rewrite IH. split; [reflexivity | assumption].
    + rewrite IH. destruct init as [|w init]; simpl.
      * exists [], (c :: t). split; [reflexivity|].
        intros [->|Hin]; [rewrite chr_eqb_refl in E; discriminate | tauto].
      * exists ((c :: w) :: init), t. split; [reflexivity | assumption].
Qed.

Lemma is_component_wav (t : str) : is_component (t ++ u ".wav") = true.
Proof.
  unfold is_component. apply andb_true_iff. split; apply negb_true_iff, str_eqb_neq;
    intros H; apply (f_equal (@length N)) in H; rewrite length_app in H; simpl in H; lia.
Qed.

(** Whatever the file name read from the metadata, the name of the audio
    path ends in [.wav] after a part without slash. *)
Lemma loaded_name (base : Path) (filename : str) :
  exists t, ~ In slash t /\
    name (joinpath base [u "wavs"; filename ++ u ".wav"]) = t ++ u ".wav".
Proof.
  destruct (split_last slash filename (u ".wav")) as (init & t & Hsplit & Ht).
  { vm_compute. intuition discriminate. }
  exists t. split; [exact Ht|].
  assert (Hparts : parts (parse_path (filename ++ u ".wav"))
                   = List.filter is_component init ++ [t ++ u ".wav"]).
  { unfold parse_path. cbn [parts]. rewrite Hsplit, List.filter_app.
    cbn [List.filter]. rewrite is_component_wav. reflexivity. }
  unfold joinpath. cbn [fold_left]. unfold join1 at 1. unfold name.
  destruct (root (parse_path (filename ++ u ".wav"))); cbn [parts].
  - rewrite Hparts, app_assoc. apply last_last.
  - rewrite Hparts. apply last_last.
Qed.

Lemma loaded_stem_good (p : Path) : loaded_path p -> good_stem (stem p).
Proof.
  intros (base & filename & ->).
  destruct (loaded_name base filename) as (t & Ht & Hn).
  rewrite (stem_wav _ _ Hn). destruct t as [|c t].
  - split; [discriminate|]. vm_compute. intuition discriminate.
  - split; [discriminate | exact Ht].
Qed.

(** The stem survives the way to the file and back. *)
Lemma stem_roundtrip (base : Path) (s : str) :
  good_stem s -> stem (joinpath base [u "wavs"; s ++ u ".wav"]) = s.
Proof.
  intros [Hne Hs].
  assert (Hplain : plain (s ++ u ".wav")).
  { split; [apply is_component_wav|]. rewrite in_app_iff. intros [H|H]; [tauto|].
    revert H. vm_compute. intuition discriminate. }
  unfold joinpath. simpl fold_left. unfold join1 at 1.
  rewrite (parse_path_plain _ Hplain). cbn [root parts].
  rewrite (stem_wav _ s).
  - destruct s; [congruence | reflexivity].
  - unfold name. cbn [parts]. apply last_last.
Qed.

(** ** The small regular-expression engine *)

Lemma matches_nil_nullable (r : re) : matches r [] -> nullable r = true.
Proof.
  intros H. remember [] as w eqn:Hw. induction H; simpl; try reflexivity; try discriminate.
  - apply app_eq_nil in Hw as [-> ->]. rewrite IHmatches1, IHmatches2; reflexivity.
  - rewrite IHmatches by assumption. reflexivity.
  - rewrite IHmatches by assumption. apply orb_true_r.
Qed.

Lemma nullable_matches_nil (r : re) : nullable r = true -> matches r [].
Proof.
  induction r; simpl; intros H; try discriminate.
  - constructor.
  - apply andb_true_iff in H as [H1 H2].
    apply (m_cat _ _ [] []); auto.
  - apply orb_true_iff in H as [H|H]; [apply m_alt_l | apply m_alt_r]; auto.
  - constructor.
Qed.

Lemma deriv_sound (a : N) (r : re) (w : str) :
  matches (deriv a r) w -> matches r (a :: w).
Proof.
  revert w. induction r; simpl; intros w H.
  - inversion H.
  - inversion H.
  - destruct (chr_eqb a c) eqn:E; inversion H; subst.
    apply chr_eqb_eq in E. subst. constructor.
  - destruct (chr_eqb a LF) eqn:E; inversion H; subst.
    constructor. intros ->. rewrite chr_eqb_refl in E. discriminate.
  - destruct (nullable r1) eqn:E.
    + inversion H; subst.
      * match goal with Hc : matches (Cat _ _) _ |- _ => inversion Hc; subst end.
        apply (m_cat _ _ (a :: _)); auto.
      * apply (m_cat _ _ []); [apply nullable_matches_nil; assumption | auto].
    + inversion H; subst. apply (m_cat _ _ (a :: _)); auto.
  - inversion H; subst; [apply m_alt_l | apply m_alt_r]; auto.
  - inversion H; subst. apply (m_star_cons _ (a :: _)); auto.
Qed.

Lemma deriv_complete (a : N) (r : re) (w : str) :
  matches r (a :: w) -> matches (deriv a r) w.
Proof.
  intros H. remember (a :: w) as aw eqn:Haw. revert a w Haw.
  induction H; intros a w' Haw; try discriminate.
  - injection Haw as -> <-. simpl. rewrite chr_eqb_refl. constructor.
  - injection Haw as -> <-. simpl.
    destruct (chr_eqb a LF) eqn:E; [apply chr_eqb_eq in E; contradiction | constructor].
  - simpl. destruct w1 as [|b w1]; simpl in Haw.
    + subst w2. rewrite (matches_nil_nullable _ H). apply m_alt_r. auto.
    + injection Haw as -> <-.
      assert (Hc : matches (Cat (deriv a r1) r2) (w1 ++ w2)) by (constructor; auto).
      destruct (nullable r1); [apply m_alt_l|]; exact Hc.
  - simpl. apply m_alt_l. auto.
  - simpl. apply m_alt_r. auto.
  - destruct w1 as [|b w1]; simpl in Haw.
    + auto.
    + injection Haw as -> <-. simpl. constructor; auto.
Qed.

(** [match_prefix] is a match anchored at the start: some prefix of the
    text belongs to the pattern. *)
Lemma match_prefix_spec (r : re) (s : str) :
  match_prefix r s = true <-> exists w rest, s = w ++ rest /\ matches r w.
Proof.
  revert r. induction s as [|a s IH]; intros r; cbn [match_prefix].
  - rewrite orb_false_r. split.
    + intros H. exists [], []. split; [reflexivity | apply nullable_matches_nil, H].
    + intros (w & rest & Hs & Hm). symmetry in Hs. apply app_eq_nil in Hs as [-> _].
      apply matches_nil_nullable, Hm.
  - rewrite orb_true_iff, IH. split.
    + intros [H | (w & rest & -> & Hm)].
      * exists [], (a :: s). split; [reflexivity | apply nullable_matches_nil, H].
      * exists (a :: w), rest. split; [reflexivity | apply deriv_sound, Hm].
    + intros (w & rest & Hs & Hm). destruct w as [|b w]; simpl in Hs.
      * left. apply matches_nil_nullable, Hm.
      * injection Hs as <- ->. right. exists w, rest.
        split; [reflexivity | apply deriv_complete, Hm].
Qed.

(** [match_anywhere] is a search: some run of the text belongs to the
    pattern. *)
Lemma match_anywhere_spec (r : re) (s : str) :
  match_anywhere r s = true <->
  exists pre w rest, s = pre ++ w ++ rest /\ matches r w.
Proof.
  induction s as [|a s IH]; cbn [match_anywhere].
  - rewrite orb_false_r, match_prefix_spec. split.
    + intros (w & rest & Hs & Hm). exists [], w, rest. auto.
    + intros (pre & w & rest & Hs & Hm). destruct pre; [|discriminate].
      exists w, rest. auto.
  - rewrite orb_true_iff, match_prefix_spec, IH. split.
    + intros [(w & rest & Hs & Hm) | (pre & w & rest & -> & Hm)].
      * exists [], w, rest. auto.
      * exists (a :: pre), w, rest. auto.
    + intros (pre & w & rest & Hs & Hm). destruct pre as [|b pre]; simpl in Hs.
      * left. exists w, rest. auto.
      * injection Hs as <- ->. right. exists pre, w, rest. auto.
Qed.

Definition small_engine : regex_engine :=
  {| pattern := re;
     re_compile := small_compile;
     re_match := match_prefix;
     re_search := match_anywhere;
     re_lang := matches;
     re_match_spec := match_prefix_spec;
     re_search_spec := match_anywhere_spec |}.

(** ** Running handlers *)

Arguments joinpath : simpl never.
Arguments u : simpl never.
Arguments str_of_Z : simpl never.
Arguments sort_by : simpl never.
Arguments startswith : simpl never.
Arguments make_title : simpl never.
Arguments deref : simpl never.
Arguments csv_writerows : simpl never.
Arguments export_rows : simpl never.
Arguments with_suffix : simpl never.

Ltac munfold :=
  unfold wx_Bell, wx_MessageBox_YES_NO, wx_MessageBox, play_file, is_file, path_exists,
    write_file, json_load, csv_load, load_name, set_title, has_unsaved_edits, dataset_dir,
    session_objects, wavList_set_objects, wavList_set_focused_item, wavList_get_selected,
    GetFocusedItem, allocate, mutate, lift, read_history,
    clear_deletedBtn, clear_pendingReviewBtn, clear_searchBtn,
    modify_win, mbind, M_bind, mret, M_ret, gets, modify, raise in *.

Lemma save_clean (play_sound : bool) (overwrite : answer) (w : World) :
  startswith (Title (win w)) (u "*") = false ->
  save play_sound overwrite w = (Ok false, emit Bell w).
Proof.
  intros H. unfold save. munfold. cbn. rewrite H. reflexivity.
Qed.

Lemma save_dirty (play_sound : bool) (overwrite : answer) (dir : Path)
    (objs : list loc) (w : World) :
  startswith (Title (win w)) (u "*") = true ->
  _dataset_dir (win w) = Some dir ->
  _objects (win w) = Some objs ->
  save play_sound overwrite w = save_outcome play_sound overwrite dir objs w.
Proof.
  intros Hdirty Hdir Hobjs. unfold save, save_outcome, overwrite_asked, json_file,
    history_file, retitle, saved_doc, saved_records, entries.
  munfold. cbn. rewrite Hdirty. cbn. rewrite Hdir. cbn.
  destruct (_is_source_csv (win w) && _) eqn:Hask; cbn;
    [destruct overwrite; cbn|]; try reflexivity;
    rewrite Hobjs; cbn;
    (destruct (bool_decide (_ ∈ readonly (disk w))) eqn:Hro1; cbn; [reflexivity|]);
    rewrite Hdir;
    destruct play_sound; cbn;
    (destruct (LV.FocusedItem (wavList (win w)) =? NOT_FOUND); cbn; [reflexivity|]);
    (destruct (bool_decide (joinpath dir [u ".last_idx"] ∈ readonly (disk w))) eqn:Hro2;
     cbn; reflexivity).
Qed.

Lemma json_history_distinct (dir : Path) : history_file dir <> json_file dir.
Proof.
  unfold history_file, json_file. rewrite history_path, edited_metadata_path.
  intros H. apply child_inj in H. revert H. vm_compute. discriminate.
Qed.

Lemma csv_json_distinct (dir : Path) : csv_file dir <> json_file dir.
Proof.
  unfold csv_file, json_file. rewrite edited_metadata_path.
  intros H. apply child_inj in H. revert H. vm_compute. discriminate.
Qed.

Lemma csv_history_distinct (dir : Path) : csv_file dir <> history_file dir.
Proof.
  unfold csv_file, history_file. rewrite history_path.
  intros H. apply child_inj in H. revert H. vm_compute. discriminate.
Qed.

(** [save] returns [True] only on a session with unsaved edits. *)
Lemma save_true_dirty (play_sound : bool) (overwrite : answer) (w : World) :
  fst (save play_sound overwrite w) = Ok true ->
  startswith (Title (win w)) (u "*") = true.
Proof.
  intros H. destruct (startswith (Title (win w)) (u "*")) eqn:E; [reflexivity|].
  rewrite save_clean in H by assumption. discriminate.
Qed.

(** The files after a [save] that returned [True]: the edits, and the
    history when a row is focused. *)
Lemma save_true_files (play_sound : bool) (overwrite : answer) (dir : Path)
    (objs : list loc) (w : World) :
  _dataset_dir (win w) = Some dir ->
  _objects (win w) = Some objs ->
  fst (save play_sound overwrite w) = Ok true ->
  files (disk (snd (save play_sound overwrite w))) =
    let saved := <[json_file dir := saved_doc (entries w objs)]> (files (disk w)) in
    let i := LV.FocusedItem (wavList (win w)) in
    if i =? NOT_FOUND then saved
    else <[history_file dir := FText (str_of_Z i)]> saved.
Proof.
  intros Hdir Hobjs H. pose proof (save_true_dirty _ _ _ H) as Hdirty.
  rewrite (save_dirty _ _ dir objs) in * by assumption.
  unfold save_outcome in *.
  destruct (overwrite_asked dir w && is_NO overwrite); [discriminate|].
  destruct (bool_decide (json_file dir ∈ readonly (disk w))); [discriminate|].
  destruct (LV.FocusedItem (wavList (win w)) =? NOT_FOUND).
  - destruct play_sound, (overwrite_asked dir w); reflexivity.
  - destruct (bool_decide (history_file dir ∈ readonly (disk w))); [discriminate|].
    destruct play_sound, (overwrite_asked dir w); reflexivity.
Qed.

Lemma save_true_json (play_sound : bool) (overwrite : answer) (dir : Path)
    (objs : list loc) (w : World) :
  _dataset_dir (win w) = Some dir ->
  _objects (win w) = Some objs ->
  fst (save play_sound overwrite w) = Ok true ->
  files (disk (snd (save play_sound overwrite w))) !! json_file dir
  = Some (saved_doc (entries w objs)).
Proof.
  intros Hdir Hobjs H. rewrite (save_true_files _ _ dir objs) by assumption. cbv zeta.
  destruct (_ =? NOT_FOUND).
  - apply lookup_insert_eq.
  - rewrite lookup_insert_ne by apply json_history_distinct. apply lookup_insert_eq.
Qed.

(** When [save] proceeds and nothing stops the writes, it returns [True]. *)
Lemma save_succeeds (play_sound : bool) (overwrite : answer) (dir : Path)
    (objs : list loc) (w : World) :
  startswith (Title (win w)) (u "*") = true ->
  _dataset_dir (win w) = Some dir ->
  _objects (win w) = Some objs ->
  (overwrite_asked dir w = true -> overwrite = YES) ->
  json_file dir ∉ readonly (disk w) ->
  history_file dir ∉ readonly (disk w) ->
  fst (save play_sound overwrite w) = Ok true.
Proof.
  intros Hdirty Hdir Hobjs Hov Hj Hh.
  rewrite (save_dirty _ _ dir objs) by assumption. unfold save_outcome.
  rewrite (bool_decide_eq_false_2 _ Hj), (bool_decide_eq_false_2 _ Hh).
  destruct (overwrite_asked dir w) eqn:E.
  - rewrite Hov by reflexivity. cbn. destruct (_ =? NOT_FOUND); reflexivity.
  - cbn. destruct (_ =? NOT_FOUND); reflexivity.
Qed.

Lemma asdict_keys (o : WavAndTranscript) :
  List.map fst (asdict o)
  = [u "idx"; u "filename"; u "text"; u "pending_review"; u "deleted"].
Proof. reflexivity. Qed.

Lemma itemgetter_idx_asdict (o : WavAndTranscript) : itemgetter_idx (asdict o) = idx o.
Proof. reflexivity. Qed.

(** ** Saving: C1 *)

(** C1, the claim as stated, fails: saving the edited two-row dataset writes
    records without the keys [index] and [transcript] (the keys are [idx] and
    [text]), and on the session just loaded, which has no unsaved edits,
    [save] writes nothing at all. *)
Lemma C1_counterexample :
  (exists d rest,
     files (disk (run (save false YES) w_edited)) !! child data (u "metadata.edited.json")
       = Some (FJson (JArr (JObj d :: rest)))
     /\ dict_get d (u "index") = None
     /\ dict_get d (u "transcript") = None)
  /\ fst (save false YES w_loaded) = Ok false
  /\ files (disk (run (save false YES) w_loaded)) !! child data (u "metadata.edited.json") = None.
Proof.
  split; [|split].
  - eexists _, _. split; [vm_compute; reflexivity|]. split; reflexivity.
  - vm_compute. reflexivity.
  - vm_compute. reflexivity.
Qed.

(** C1, amended: whenever [save] goes through (it returns [True]: the session
    has unsaved edits and the question about overwriting, if asked, was
    answered yes), the file [metadata.edited.json] of the dataset directory
    holds a JSON array with one record per entry of the session, deleted
    ones included, sorted by [idx] ascending, each record with exactly the
    keys [idx], [filename], [text], [pending_review], [deleted] bound to the
    index, the stem of the audio path, the transcript and the two flags. *)
Theorem C1_save_writes_all_entries (play_sound : bool) (overwrite : answer) (dir : Path)
    (objs : list loc) (w : World) :
  _dataset_dir (win w) = Some dir ->
  _objects (win w) = Some objs ->
  fst (save play_sound overwrite w) = Ok true ->
  exists records,
    files (disk (snd (save play_sound overwrite w))) !! child dir (u "metadata.edited.json")
      = Some (FJson (JArr (List.map JObj records)))
    /\ Permutation records (List.map asdict (entries w objs))
    /\ Sorted (le_by itemgetter_idx) records
    /\ Forall (fun d => exists o, In o (entries w objs) /\
                 d = [ (u "idx", JInt (idx o));
                       (u "filename", JStr (stem (wavpath o)));
                       (u "text", JStr (transcript o));
                       (u "pending_review", JBool (pending_review o));
                       (u "deleted", JBool (deleted o)) ]) records.
Proof.
  intros Hdir Hobjs H. exists (saved_records (entries w objs)).
  split; [|split; [|split]].
  - rewrite <- edited_metadata_path. apply (save_true_json _ _ dir objs); assumption.
  - apply sort_by_perm.
  - apply sort_by_sorted.
  - apply List.Forall_forall. intros d Hd.
    apply (Permutation_in _ (sort_by_perm itemgetter_idx _)) in Hd.
    apply in_map_iff in Hd as (o & <- & Ho). exists o. split; [exact Ho | reflexivity].
Qed.

Lemma C1_witness :
  exists records,
    files (disk (snd (save false YES w_edited))) !! child data (u "metadata.edited.json")
      = Some (FJson (JArr (List.map JObj records)))
    /\ Permutation records (List.map asdict (entries w_edited [0; 1]%nat))
    /\ Sorted (le_by itemgetter_idx) records
    /\ Forall (fun d => exists o, In o (entries w_edited [0; 1]%nat) /\
                 d = [ (u "idx", JInt (idx o));
                       (u "filename", JStr (stem (wavpath o)));
                       (u "text", JStr (transcript o));
                       (u "pending_review", JBool (pending_review o));
                       (u "deleted", JBool (deleted o)) ]) records.
Proof.
  apply (C1_save_writes_all_entries false YES data [0; 1]%nat w_edited);
    vm_compute; reflexivity.
Defined.

(** ** The history file: C8 and C9 *)

(** C8, the claim as stated, fails: when [.last_idx] cannot be written, [save]
    ends with the error of that write. *)
Lemma C8_counterexample :
  fst (save false YES w_edited_locked) = Raised (OSError (child data (u ".last_idx"))).
Proof. vm_compute. reflexivity. Qed.

(** C8, amended: the write of [.last_idx] is not guarded.  When [save]
    proceeds with a focused row and that write fails, [save] ends with the
    error of the write instead of returning; the edits are then already in
    [metadata.edited.json] and the title has been set again. *)
Theorem C8_history_write_failure_propagates (play_sound : bool) (overwrite : answer)
    (dir : Path) (objs : list loc) (w : World) :
  startswith (Title (win w)) (u "*") = true ->
  _dataset_dir (win w) = Some dir ->
  _objects (win w) = Some objs ->
  (overwrite_asked dir w = true -> overwrite = YES) ->
  json_file dir ∉ readonly (disk w) ->
  LV.FocusedItem (wavList (win w)) <> NOT_FOUND ->
  history_file dir ∈ readonly (disk w) ->
  fst (save play_sound overwrite w) = Raised (OSError (history_file dir))
  /\ files (disk (snd (save play_sound overwrite w))) !! json_file dir
     = Some (saved_doc (entries w objs))
  /\ files (disk (snd (save play_sound overwrite w))) !! history_file dir
     = files (disk w) !! history_file dir
  /\ Title (win (snd (save play_sound overwrite w))) = make_title (Some dir) false.
Proof.
  intros Hdirty Hdir Hobjs Hov Hj Hfocus Hh.
  rewrite (save_dirty _ _ dir objs) by assumption. unfold save_outcome.
  rewrite (bool_decide_eq_false_2 _ Hj), (bool_decide_eq_true_2 _ Hh).
  apply Z.eqb_neq in Hfocus. rewrite Hfocus.
  assert (Hno : overwrite_asked dir w && is_NO overwrite = false).
  { destruct (overwrite_asked dir w); [rewrite Hov by reflexivity|]; reflexivity. }
  rewrite Hno. cbv zeta.
  destruct play_sound, (overwrite_asked dir w); cbn; rewrite ?Hdir;
    (split; [reflexivity|]); (split; [apply lookup_insert_eq|]);
    (split; [apply lookup_insert_ne, not_eq_sym, json_history_distinct | reflexivity]).
Qed.

Lemma C8_witness :
  fst (save false YES w_edited_locked) = Raised (OSError (history_file data))
  /\ files (disk (snd (save false YES w_edited_locked))) !! json_file data
     = Some (saved_doc (entries w_edited_locked [0; 1]%nat))
  /\ files (disk (snd (save false YES w_edited_locked))) !! history_file data
     = files (disk w_edited_locked) !! history_file data
  /\ Title (win (snd (save false YES w_edited_locked))) = make_title (Some data) false.
Proof.
  apply (C8_history_write_failure_propagates false YES data [0; 1]%nat w_edited_locked).
  - vm_compute. reflexivity.
  - vm_compute. reflexivity.
  - vm_compute. reflexivity.
  - intros _. reflexivity.
  - vm_compute. discriminate.
  - vm_compute. discriminate.
  - vm_compute. reflexivity.
Defined.




(** ** The Save button: C10 *)

(** [edited_metadata] is a local variable of [save]; [onSave] cannot see
    it, and neither the module nor the built-ins define it. *)
Lemma edited_metadata_scope :
  existsb (String.eqb "edited_metadata") save_locals = true
  /\ existsb (String.eqb "edited_metadata") (onSave_locals ++ module_globals ++ builtins)
     = false.
Proof. split; reflexivity. Qed.

(** C10, the claim as stated, fails for one kind of session with unsaved
    edits: when the session comes from [metadata.csv], saved edits exist and
    the user declines to overwrite them, [onSave] returns without an error
    and without writing. *)
Lemma C10_counterexample :
  startswith (Title (win w_edited_beside_edits)) (u "*") = true
  /\ fst (onSave NO w_edited_beside_edits) = Ok tt
  /\ files (disk (run (onSave NO) w_edited_beside_edits)) !! child data (u "metadata.edited.json")
     = files (disk_edits) !! child data (u "metadata.edited.json").
Proof. split; [|split]; vm_compute; reflexivity. Qed.

(** C10, amended: whenever the [save] run by [onSave] returns [True] (the
    session has unsaved edits, the question about overwriting, if asked, is
    answered yes, and the writes succeed), [onSave] ends with a [NameError]
    for [edited_metadata] after the file has been written, and shows no
    message of success. *)
Theorem C10_onSave_raises_NameError (overwrite : answer) (dir : Path) (objs : list loc)
    (w : World) :
  _dataset_dir (win w) = Some dir ->
  _objects (win w) = Some objs ->
  fst (save false overwrite w) = Ok true ->
  fst (onSave overwrite w) = Raised (NameError "edited_metadata")
  /\ snd (onSave overwrite w) = snd (save false overwrite w)
  /\ files (disk (snd (onSave overwrite w))) !! child dir (u "metadata.edited.json")
     = Some (saved_doc (entries w objs)).
Proof.
  intros Hdir Hobjs H.
  assert (Hrun : onSave overwrite w
                 = (Raised (NameError "edited_metadata"), snd (save false overwrite w))).
  { unfold onSave. unfold mbind, M_bind.
    destruct (save false overwrite w) as [[b|e] w'] eqn:E; cbn in H; [|discriminate].
    injection H as ->. reflexivity. }
  rewrite Hrun. cbn [fst snd]. split; [reflexivity|]. split; [reflexivity|].
  rewrite <- edited_metadata_path. apply (save_true_json _ _ dir objs); assumption.
Qed.

Lemma C10_witness :
  fst (onSave YES w_edited) = Raised (NameError "edited_metadata")
  /\ snd (onSave YES w_edited) = snd (save false YES w_edited)
  /\ files (disk (snd (onSave YES w_edited))) !! child data (u "metadata.edited.json")
     = Some (saved_doc (entries w_edited [0; 1]%nat)).
Proof.
  apply (C10_onSave_raises_NameError YES data [0; 1]%nat w_edited);
    vm_compute; reflexivity.
Defined.

(** Every session with unsaved edits that is allowed to overwrite and can
    write its files ends the Save button in that error. *)
Lemma onSave_dirty_raises (overwrite : answer) (dir : Path) (objs : list loc) (w : World) :
  startswith (Title (win w)) (u "*") = true ->
  _dataset_dir (win w) = Some dir ->
  _objects (win w) = Some objs ->
  (overwrite_asked dir w = true -> overwrite = YES) ->
  json_file dir ∉ readonly (disk w) ->
  history_file dir ∉ readonly (disk w) ->
  fst (onSave overwrite w) = Raised (NameError "edited_metadata").
Proof.
  intros Hdirty Hdir Hobjs Hov Hj Hh.
  pose proof (save_succeeds false overwrite dir objs w Hdirty Hdir Hobjs Hov Hj Hh) as H.
  unfold onSave. unfold mbind, M_bind.
  destruct (save false overwrite w) as [[b|e] w'] eqn:E; cbn in H; [|discriminate].
  injection H as ->. reflexivity.
Qed.

(** ** Opening a dataset: C2 *)

Lemma suffix_child (dir : Path) (c : str) :
  suffix (child dir c) = match suffix_dot c with Some i => drop i c | None => [] end.
Proof. unfold suffix. rewrite name_child. reflexivity. Qed.

Lemma show_session_spec (chosen_path : Path) (src : bool) (os : list WavAndTranscript) (w : World) :
  history_readable chosen_path w ->
  show_session chosen_path (seq (length (heap w)) (length os))
    (set_heap (heap w ++ os) (set_win (set__is_source_csv src (win w)) w))
  = (Ok tt, opened chosen_path src os w).
Proof.
  intros Hh. unfold show_session, opened, shown, history_of, history_readable, history_file in *.
  munfold. cbn.
  destruct (files (disk w) !! joinpath chosen_path [u ".last_idx"]) as [[s|v]|] eqn:E; cbn.
  - destruct (py_int s); reflexivity.
  - destruct v; reflexivity.
  - rewrite bool_decide_eq_false_2 by (apply Hh; reflexivity). reflexivity.
Qed.

Lemma load_objects_csv (chosen_path : Path) (text : str) (rows : list (list str)) (w : World) :
  files (disk w) !! child chosen_path (u "metadata.csv") = Some (FText text) ->
  csv_reader_rows text = Some rows ->
  load_objects chosen_path (child chosen_path (u "metadata.csv")) w
  = (Ok (seq (length (heap w)) (length (entries_of_rows chosen_path rows))),
     set_heap (heap w ++ entries_of_rows chosen_path rows)
              (set_win (set__is_source_csv true (win w)) w)).
Proof.
  intros Hf Hrows. unfold load_objects. rewrite suffix_child.
  change (str_eqb _ (u ".json")) with false. cbv iota.
  munfold. cbn. rewrite Hf. cbn. rewrite Hrows. reflexivity.
Qed.

Lemma load_objects_json (chosen_path : Path) (doc : json) (items : list json) os (w : World) :
  files (disk w) !! child chosen_path (u "metadata.edited.json") = Some (FJson doc) ->
  iterate doc = Ok items ->
  entries_of_json chosen_path items = Ok os ->
  load_objects chosen_path (child chosen_path (u "metadata.edited.json")) w
  = (Ok (seq (length (heap w)) (length os)),
     set_heap (heap w ++ os) (set_win (set__is_source_csv false (win w)) w)).
Proof.
  intros Hf Hit Hos. unfold load_objects. rewrite suffix_child.
  change (str_eqb _ (u ".json")) with true. cbv iota.
  munfold. cbn. rewrite Hf. cbn. rewrite Hit. cbn. rewrite Hos. reflexivity.
Qed.

Lemma onOpen_no_csv (chosen_dir : str) (reload : answer) (w : World) :
  chosen_dir <> [] ->
  dir_found chosen_dir w = true ->
  files (disk w) !! child (parse_path chosen_dir) (u "metadata.csv") = None ->
  onOpen chosen_dir reload w = (Ok tt, emit NO_METADATA_CSV w).
Proof.
  intros Hne Hfound Hcsv. unfold onOpen, dir_found in *.
  apply str_eqb_neq in Hne. rewrite Hne. munfold. cbn. rewrite Hfound. cbn.
  rewrite metadata_csv_path, Hcsv. reflexivity.
Qed.

Lemma onOpen_from_csv (chosen_dir : str) (reload : answer) (text : str)
    (rows : list (list str)) (w : World) :
  let dir := parse_path chosen_dir in
  chosen_dir <> [] ->
  dir_found chosen_dir w = true ->
  files (disk w) !! child dir (u "metadata.csv") = Some (FText text) ->
  csv_reader_rows text = Some rows ->
  (has_edits dir w = true -> reload = NO) ->
  history_readable dir w ->
  onOpen chosen_dir reload w
  = (Ok tt, opened dir true (entries_of_rows dir rows) (asked_to_reload dir w)).
Proof.
  intros dir Hne Hfound Hcsv Hrows Hreload Hh. unfold onOpen, dir_found in *.
  apply str_eqb_neq in Hne. rewrite Hne. unfold path_exists, is_file.
  unfold mbind at 1. unfold M_bind at 1. unfold gets at 1. rewrite Hfound. cbn [negb]. fold dir.
  unfold mbind at 1. unfold M_bind at 1. unfold gets at 1.
  rewrite metadata_csv_path, Hcsv.
  rewrite bool_decide_eq_true_2 by eauto. cbn [negb].
  unfold asked_to_reload, has_edits, json_file in *.
  unfold mbind at 1. unfold M_bind at 1. unfold gets at 1.
  destruct (bool_decide (is_Some (files (disk w) !! joinpath dir [EDITED_METADATA_FILENAME]))) eqn:E.
  - rewrite Hreload by reflexivity. unfold wx_MessageBox_YES_NO, wx_MessageBox.
    unfold mbind, M_bind, mret, M_ret, modify.
    rewrite (load_objects_csv dir text rows) by assumption.
    apply (show_session_spec dir true (entries_of_rows dir rows) (emit PREVIOUS_EDITS_FOUND w)).
    exact Hh.
  - unfold mbind, M_bind, mret, M_ret.
    rewrite (load_objects_csv dir text rows) by assumption.
    apply (show_session_spec dir true (entries_of_rows dir rows) w). exact Hh.
Qed.

Lemma onOpen_from_json (chosen_dir : str) (doc : json) (items : list json)
    (os : list WavAndTranscript) (w : World) :
  let dir := parse_path chosen_dir in
  chosen_dir <> [] ->
  dir_found chosen_dir w = true ->
  is_Some (files (disk w) !! child dir (u "metadata.csv")) ->
  files (disk w) !! child dir (u "metadata.edited.json") = Some (FJson doc) ->
  iterate doc = Ok items ->
  entries_of_json dir items = Ok os ->
  history_readable dir w ->
  onOpen chosen_dir YES w
  = (Ok tt, opened dir false os (emit PREVIOUS_EDITS_FOUND w)).
Proof.
  intros dir Hne Hfound Hcsv Hjson Hit Hos Hh. unfold onOpen, dir_found in *.
  apply str_eqb_neq in Hne. rewrite Hne. unfold path_exists, is_file.
  unfold mbind at 1. unfold M_bind at 1. unfold gets at 1. rewrite Hfound. cbn [negb]. fold dir.
  unfold mbind at 1. unfold M_bind at 1. unfold gets at 1.
  rewrite metadata_csv_path.
  rewrite bool_decide_eq_true_2 by assumption. cbn [negb].
  unfold mbind at 1. unfold M_bind at 1. unfold gets at 1.
  rewrite edited_metadata_path, Hjson.
  rewrite bool_decide_eq_true_2 by eauto.
  unfold wx_MessageBox_YES_NO, wx_MessageBox.
  unfold mbind, M_bind, mret, M_ret, modify.
  rewrite (load_objects_json dir doc items os) by assumption.
  apply (show_session_spec dir false os (emit PREVIOUS_EDITS_FOUND w)). exact Hh.
Qed.

Lemma deref_cons (h : list WavAndTranscript) (l : loc) (o : WavAndTranscript) (ls : list loc) :
  h !! l = Some o -> deref h (l :: ls) = o :: deref h ls.
Proof. intros H. unfold deref. cbn. rewrite H. reflexivity. Qed.

Lemma deref_seq (h os : list WavAndTranscript) :
  deref (h ++ os) (seq (length h) (length os)) = os.
Proof.
  revert h. induction os as [|o os IH]; intros h; [reflexivity|].
  cbn [length seq]. rewrite (deref_cons _ _ o).
  - f_equal. specialize (IH (h ++ [o])). rewrite length_app, <- app_assoc in IH.
    cbn in IH. rewrite Nat.add_1_r in IH. exact IH.
  - rewrite lookup_app_r by lia. rewrite Nat.sub_diag. reflexivity.
Qed.

Lemma valid_refs_seq (h os : list WavAndTranscript) :
  valid_refs (h ++ os) (seq (length h) (length os)).
Proof.
  apply List.Forall_forall. intros l Hl. apply in_seq in Hl.
  apply lookup_lt_is_Some. rewrite length_app. lia.
Qed.

Lemma attr_idx_lookup (h : list WavAndTranscript) (l : loc) (o : WavAndTranscript) :
  h !! l = Some o -> attr_idx h l = idx o.
Proof. intros H. unfold attr_idx. rewrite H. reflexivity. Qed.

Lemma deref_insert (h : list WavAndTranscript) (l : loc) (o : WavAndTranscript) (ls : list loc) :
  h !! l = Some o -> valid_refs h ls ->
  deref h (insert_by (attr_idx h) l ls) = insert_by idx o (deref h ls).
Proof.
  intros Hl. induction 1 as [|l' ls [o' Hl'] Hls IH]; cbn [insert_by].
  - rewrite (deref_cons _ _ o) by assumption. reflexivity.
  - rewrite (deref_cons _ l' o') by assumption. cbn [insert_by].
    rewrite (attr_idx_lookup _ _ _ Hl), (attr_idx_lookup _ _ _ Hl').
    destruct (idx o <=? idx o').
    + rewrite (deref_cons _ _ o), (deref_cons _ _ o') by assumption. reflexivity.
    + rewrite (deref_cons _ _ o') by assumption. rewrite IH. reflexivity.
Qed.

Lemma valid_refs_perm (h : list WavAndTranscript) (ls ls' : list loc) :
  Permutation ls ls' -> valid_refs h ls -> valid_refs h ls'.
Proof.
  intros Hp. unfold valid_refs. rewrite !List.Forall_forall. intros H x Hx.
  apply H. eapply Permutation_in; [symmetry; exact Hp | exact Hx].
Qed.

Lemma deref_sort (h : list WavAndTranscript) (ls : list loc) :
  valid_refs h ls -> deref h (sort_by (attr_idx h) ls) = sort_by idx (deref h ls).
Proof.
  induction 1 as [|l ls [o Hl] Hls IH].
  - reflexivity.
  - unfold sort_by in *. cbn [fold_right]. rewrite (deref_cons _ _ o) by assumption.
    cbn [fold_right]. rewrite <- IH. apply deref_insert; [assumption|].
    eapply valid_refs_perm; [|exact Hls]. symmetry. apply (sort_by_perm (attr_idx h)).
Qed.

Lemma opened_entries (dir : Path) (src : bool) (os : list WavAndTranscript) (w : World) :
  exists objs,
    _objects (win (opened dir src os w)) = Some objs
    /\ LV._objects (wavList (win (opened dir src os w))) = objs
    /\ entries (opened dir src os w) objs = sort_by idx os
    /\ valid_refs (heap (opened dir src os w)) objs.
Proof.
  eexists. split; [reflexivity|]. split; [|split].
  - unfold opened, shown. cbn. destruct (history_of dir w); unfold LV.set_focused_item, LV.set_objects, LV.set_focused_item ; cbn;
     repeat (match goal with |- context [if ?b then _ else _] => destruct b end); reflexivity.
  - unfold entries, opened. cbn [heap]. rewrite deref_sort by apply valid_refs_seq.
    rewrite deref_seq. reflexivity.
  - unfold opened. cbn [heap]. eapply valid_refs_perm; [|apply valid_refs_seq].
    symmetry. apply sort_by_perm.
Qed.

Lemma preserved_bind {X A B : Type} (obs : World -> X) (m : M A) (f : A -> M B) :
  preserved obs m -> (forall a, preserved obs (f a)) -> preserved obs (m ≫= f).
Proof.
  intros Hm Hf w. unfold mbind, M_bind. specialize (Hm w).
  destruct (m w) as [[a|e] w1]; cbn in *; [rewrite Hf|]; exact Hm.
Qed.

Lemma preserved_ret {X A : Type} (obs : World -> X) (a : A) : preserved obs (mret a).
Proof. intros w. reflexivity. Qed.

Lemma preserved_raise {X A : Type} (obs : World -> X) (e : exn) :
  preserved obs (raise (A:=A) e).
Proof. intros w. reflexivity. Qed.

Lemma preserved_gets {X A : Type} (obs : World -> X) (f : World -> A) :
  preserved obs (gets f).
Proof. intros w. reflexivity. Qed.

Lemma preserved_modify {X : Type} (obs : World -> X) (f : World -> World) :
  (forall w, obs (f w) = obs w) -> preserved obs (modify f).
Proof. intros H w. apply H. Qed.

Ltac preserved :=
  repeat first
    [ apply preserved_bind; [|intros ?]
    | apply preserved_ret
    | apply preserved_raise
    | apply preserved_gets
    | apply preserved_modify; intros ?; reflexivity
    | match goal with
      | |- preserved _ (match ?x with _ => _ end) => destruct x
      end ].

Lemma load_objects_ui (dir f : Path) : preserved ui (load_objects dir f).
Proof.
  unfold load_objects, json_load, csv_load, lift, allocate, modify_win. preserved.
Qed.

Lemma show_session_ui (dir : Path) (objs : list loc) : preserved ui (show_session dir objs).
Proof.
  unfold show_session, read_history, wavList_set_objects, wavList_set_focused_item,
    set_title, modify_win. preserved.
Qed.

Lemma bind_assoc {A B C : Type} (m : M A) (f : A -> M B) (g : B -> M C) (w : World) :
  ((m ≫= f) ≫= g) w = (m ≫= (fun a => f a ≫= g)) w.
Proof. unfold mbind, M_bind. destruct (m w) as [[a|e] w1]; reflexivity. Qed.

Lemma bind_ret {A B : Type} (a : A) (f : A -> M B) (w : World) :
  (mret a ≫= f) w = f a w.
Proof. reflexivity. Qed.

Lemma bind_gets {A B : Type} (h : World -> A) (f : A -> M B) (w : World) :
  (gets h ≫= f) w = f (h w) w.
Proof. reflexivity. Qed.

Lemma bind_modify {B : Type} (h : World -> World) (f : unit -> M B) (w : World) :
  (modify h ≫= f) w = f tt (h w).
Proof. reflexivity. Qed.

Lemma bind_ask {B : Type} (box : ui_event) (reply : answer) (f : answer -> M B) (w : World) :
  (wx_MessageBox_YES_NO box reply ≫= f) w = f reply (emit box w).
Proof. reflexivity. Qed.

Lemma onOpen_ui_with_csv (chosen_dir : str) (reload : answer) (w : World) :
  chosen_dir <> [] ->
  dir_found chosen_dir w = true ->
  is_Some (files (disk w) !! child (parse_path chosen_dir) (u "metadata.csv")) ->
  ui (snd (onOpen chosen_dir reload w)) = ui (asked_to_reload (parse_path chosen_dir) w).
Proof.
  intros Hne Hfound Hcsv. unfold onOpen, dir_found in *.
  apply str_eqb_neq in Hne. rewrite Hne. unfold path_exists, is_file.
  rewrite bind_gets, Hfound. cbn [negb].
  rewrite bind_gets, metadata_csv_path.
  rewrite bool_decide_eq_true_2 by assumption. cbn [negb].
  unfold asked_to_reload, has_edits, json_file in *.
  rewrite bind_gets.
  destruct (bool_decide (is_Some (files (disk w) !! joinpath (parse_path chosen_dir) [EDITED_METADATA_FILENAME]))) eqn:E.
  - rewrite bind_assoc, bind_ask, bind_ret.
    apply (preserved_bind ui); [apply load_objects_ui | intros ?; apply show_session_ui].
  - rewrite bind_ret.
    apply (preserved_bind ui); [apply load_objects_ui | intros ?; apply show_session_ui].
Qed.

(** C2, the claim as stated, fails: a directory that holds only
    [metadata.edited.json] is not loaded; the handler reports that
    [metadata.csv] is missing and leaves the window without a session. *)
Lemma C2_counterexample :
  is_Some (files disk_only_edits !! child data (u "metadata.edited.json"))
  /\ fst (onOpen (u "/data") YES (fresh disk_only_edits)) = Ok tt
  /\ ui (run (onOpen (u "/data") YES) (fresh disk_only_edits)) = [NO_METADATA_CSV]
  /\ _objects (win (run (onOpen (u "/data") YES) (fresh disk_only_edits))) = None
  /\ _dataset_dir (win (run (onOpen (u "/data") YES) (fresh disk_only_edits))) = None.
Proof.
  split; [eexists; vm_compute; reflexivity|].
  repeat split; vm_compute; reflexivity.
Qed.

(** C2, amended: a directory is loaded only if [metadata.csv] exists directly
    under it.  When [metadata.csv] is missing the handler reports it as not
    found and creates no session, whether or not [metadata.edited.json]
    exists; when it is there, that report is never made, and the session is
    read from [metadata.csv] if there are no saved edits or the user declines
    to reload them, and from [metadata.edited.json] if the user chooses to
    reload them (provided the chosen file can be parsed). *)
Theorem C2_open_needs_metadata_csv (chosen_dir : str) (reload : answer) (w : World) :
  chosen_dir <> [] ->
  dir_found chosen_dir w = true ->
  let dir := parse_path chosen_dir in
  let w' := snd (onOpen chosen_dir reload w) in
  (files (disk w) !! child dir (u "metadata.csv") = None ->
   onOpen chosen_dir reload w = (Ok tt, emit NO_METADATA_CSV w))
  /\ (is_Some (files (disk w) !! child dir (u "metadata.csv")) ->
      ~ In NO_METADATA_CSV (drop (length (ui w)) (ui w')))
  /\ (forall text rows,
        files (disk w) !! child dir (u "metadata.csv") = Some (FText text) ->
        csv_reader_rows text = Some rows ->
        (has_edits dir w = true -> reload = NO) ->
        history_readable dir w ->
        fst (onOpen chosen_dir reload w) = Ok tt
        /\ _dataset_dir (win w') = Some dir
        /\ _is_source_csv (win w') = true
        /\ exists objs, _objects (win w') = Some objs
                        /\ entries w' objs = sort_by idx (entries_of_rows dir rows))
  /\ (forall doc items os,
        is_Some (files (disk w) !! child dir (u "metadata.csv")) ->
        files (disk w) !! child dir (u "metadata.edited.json") = Some (FJson doc) ->
        reload = YES ->
        iterate doc = Ok items ->
        entries_of_json dir items = Ok os ->
        history_readable dir w ->
        fst (onOpen chosen_dir reload w) = Ok tt
        /\ _dataset_dir (win w') = Some dir
        /\ _is_source_csv (win w') = false
        /\ exists objs, _objects (win w') = Some objs
                        /\ entries w' objs = sort_by idx os).
Proof.
  intros Hne Hfound dir w'. split; [|split; [|split]].
  - intros Hcsv. apply onOpen_no_csv; assumption.
  - intros Hcsv. subst w'. rewrite onOpen_ui_with_csv by assumption.
    unfold asked_to_reload. destruct (has_edits _ w); cbn [ui emit].
    + rewrite drop_app_length. intros [H|[]]. discriminate.
    + rewrite drop_all. intros [].
  - intros text rows Hcsv Hrows Hreload Hh. subst w'.
    rewrite (onOpen_from_csv chosen_dir reload text rows) by assumption.
    fold dir. cbn [fst snd].
    destruct (opened_entries dir true (entries_of_rows dir rows) (asked_to_reload dir w))
      as (objs & Hobjs & _ & Hentries & _).
    repeat split; try reflexivity. exists objs. split; assumption.
  - intros doc items os Hcsv Hjson -> Hit Hos Hh. subst w'.
    rewrite (onOpen_from_json chosen_dir doc items os) by assumption.
    fold dir. cbn [fst snd].
    destruct (opened_entries dir false os (emit PREVIOUS_EDITS_FOUND w))
      as (objs & Hobjs & _ & Hentries & _).
    repeat split; try reflexivity. exists objs. split; assumption.
Qed.

Lemma C2_witness :
  onOpen (u "/data") YES (fresh disk_only_edits)
  = (Ok tt, emit NO_METADATA_CSV (fresh disk_only_edits))
  /\ fst (onOpen (u "/data") YES (fresh disk_csv)) = Ok tt.
Proof.
  split.
  - apply (C2_open_needs_metadata_csv (u "/data") YES (fresh disk_only_edits)).
    + discriminate.
    + vm_compute. reflexivity.
    + vm_compute. reflexivity.
  - assert (Hne : u "/data" <> []) by discriminate.
    assert (Hfound : dir_found (u "/data") (fresh disk_csv) = true)
      by (vm_compute; reflexivity).
    destruct (C2_open_needs_metadata_csv (u "/data") YES (fresh disk_csv) Hne Hfound)
      as (_ & _ & Hcsv & _).
    eapply (Hcsv example_csv).
    + vm_compute. reflexivity.
    + vm_compute. reflexivity.
    + intros H. vm_compute in H. discriminate.
    + intros _. vm_compute. discriminate.
Defined.

(** ** Round trip: C4 *)

Lemma saved_records_sorted (os : list WavAndTranscript) :
  saved_records os = List.map asdict (sort_by idx os).
Proof. unfold saved_records. rewrite sort_by_map. reflexivity. Qed.

Lemma entry_of_json_asdict (dir : Path) (o : WavAndTranscript) :
  entry_of_json dir (JObj (asdict o)) = Ok (reloaded dir o).
Proof. reflexivity. Qed.

Lemma entries_of_json_asdict (dir : Path) (os : list WavAndTranscript) :
  entries_of_json dir (List.map JObj (List.map asdict os)) = Ok (List.map (reloaded dir) os).
Proof.
  induction os as [|o os IH]; [reflexivity|].
  cbn [List.map entries_of_json]. rewrite entry_of_json_asdict, IH. reflexivity.
Qed.

Lemma asdict_reloaded (dir : Path) (o : WavAndTranscript) :
  loaded_path (wavpath o) -> asdict (reloaded dir o) = asdict o.
Proof.
  intros H. unfold asdict, reloaded. cbn [idx wavpath transcript pending_review deleted].
  rewrite stem_roundtrip by (apply loaded_stem_good, H). reflexivity.
Qed.

Lemma sort_by_reloaded (dir : Path) (os : list WavAndTranscript) :
  sort_by idx (List.map (reloaded dir) os) = List.map (reloaded dir) (sort_by idx os).
Proof. rewrite sort_by_map. reflexivity. Qed.

(** Saving what was reloaded gives the records that were loaded. *)
Lemma saved_records_roundtrip (dir : Path) (os : list WavAndTranscript) :
  Forall (fun o => loaded_path (wavpath o)) os ->
  saved_records (sort_by idx (List.map (reloaded dir) (sort_by idx os))) = saved_records os.
Proof.
  intros Hos. rewrite sort_by_reloaded, sort_by_idem.
  rewrite !saved_records_sorted, sort_by_reloaded, sort_by_idem.
  rewrite List.map_map. apply List.map_ext_in. intros o Ho.
  apply asdict_reloaded. rewrite List.Forall_forall in Hos. apply Hos.
  eapply Permutation_in; [apply sort_by_perm | exact Ho].
Qed.

(** After [save] the file of the edits is as before, or holds the records
    of the session. *)
Lemma save_json_file (play_sound : bool) (overwrite : answer) (dir : Path)
    (objs : list loc) (w : World) :
  _dataset_dir (win w) = Some dir ->
  _objects (win w) = Some objs ->
  files (disk (snd (save play_sound overwrite w))) !! json_file dir
    = files (disk w) !! json_file dir
  \/ files (disk (snd (save play_sound overwrite w))) !! json_file dir
    = Some (saved_doc (entries w objs)).
Proof.
  intros Hdir Hobjs. destruct (startswith (Title (win w)) (u "*")) eqn:Hdirty.
  - rewrite (save_dirty _ _ dir objs) by assumption. unfold save_outcome.
    destruct (overwrite_asked dir w && is_NO overwrite).
    { left. destruct (overwrite_asked dir w); reflexivity. }
    destruct (bool_decide (json_file dir ∈ readonly (disk w))).
    { left. destruct (overwrite_asked dir w); reflexivity. }
    right. cbv zeta. destruct (_ =? NOT_FOUND).
    + destruct play_sound, (overwrite_asked dir w); apply lookup_insert_eq.
    + destruct (bool_decide (history_file dir ∈ readonly (disk w))).
      * destruct play_sound, (overwrite_asked dir w); apply lookup_insert_eq.
      * destruct play_sound, (overwrite_asked dir w); cbn;
          (rewrite lookup_insert_ne by apply json_history_distinct);
          apply lookup_insert_eq.
  - left. rewrite save_clean by assumption. reflexivity.
Qed.

(** C4: round trip.  Let [metadata.edited.json] hold a document that [save]
    produced for entries made by the loader.  Loading it succeeds; the
    records [save] computes for the loaded session are the records of the
    document, the same ones in the same order with the same values; and
    after saving again with no edit in between, whether [save] writes or
    finds nothing to write, the file holds that same document. *)
Theorem C4_roundtrip (chosen_dir : str) (doc : json) (w : World) :
  chosen_dir <> [] ->
  dir_found chosen_dir w = true ->
  let dir := parse_path chosen_dir in
  is_Some (files (disk w) !! child dir (u "metadata.csv")) ->
  files (disk w) !! json_file dir = Some (FJson doc) ->
  produced_by_save doc ->
  history_readable dir w ->
  let w1 := snd (onOpen chosen_dir YES w) in
  fst (onOpen chosen_dir YES w) = Ok tt
  /\ (exists objs, _objects (win w1) = Some objs /\ saved_doc (entries w1 objs) = FJson doc)
  /\ (forall play_sound overwrite,
        files (disk (snd (save play_sound overwrite w1))) !! json_file dir = Some (FJson doc)).
Proof.
  intros Hne Hfound dir Hcsv Hjson (os & Hos & ->) Hh w1.
  assert (Hopen : onOpen chosen_dir YES w
                  = (Ok tt, opened dir false (List.map (reloaded dir) (sort_by idx os))
                                   (emit PREVIOUS_EDITS_FOUND w))).
  { apply (onOpen_from_json chosen_dir (JArr (List.map JObj (saved_records os)))
                            (List.map JObj (saved_records os))); try assumption.
    - reflexivity.
    - rewrite saved_records_sorted. apply entries_of_json_asdict. }
  subst w1. rewrite Hopen. cbn [fst snd].
  destruct (opened_entries dir false (List.map (reloaded dir) (sort_by idx os))
                           (emit PREVIOUS_EDITS_FOUND w))
    as (objs & Hobjs & _ & Hentries & _).
  assert (Hdoc : saved_doc (entries (opened dir false (List.map (reloaded dir) (sort_by idx os))
                                            (emit PREVIOUS_EDITS_FOUND w)) objs)
                 = FJson (JArr (List.map JObj (saved_records os)))).
  { unfold saved_doc. rewrite Hentries, saved_records_roundtrip by assumption. reflexivity. }
  split; [reflexivity|]. split.
  - exists objs. split; assumption.
  - intros play_sound overwrite.
    destruct (save_json_file play_sound overwrite dir objs
                (opened dir false (List.map (reloaded dir) (sort_by idx os))
                        (emit PREVIOUS_EDITS_FOUND w))) as [H|H];
      try assumption; try reflexivity; rewrite H.
    + exact Hjson.
    + rewrite Hdoc. reflexivity.
Qed.

Lemma C4_witness :
  fst (onOpen (u "/data") YES (fresh disk_edits)) = Ok tt
  /\ (exists objs, _objects (win w_reloaded) = Some objs
                   /\ saved_doc (entries w_reloaded objs)
                      = FJson (JArr [ record 5 (u "a") (u "hello world") false false;
                                      record 7 (u "b") (u "say hello") true false ]))
  /\ (forall play_sound overwrite,
        files (disk (snd (save play_sound overwrite w_reloaded))) !! json_file data
        = Some (FJson (JArr [ record 5 (u "a") (u "hello world") false false;
                              record 7 (u "b") (u "say hello") true false ]))).
Proof.
  apply (C4_roundtrip (u "/data") _ (fresh disk_edits)).
  - discriminate.
  - vm_compute. reflexivity.
  - eexists. vm_compute. reflexivity.
  - vm_compute. reflexivity.
  - exists [ mkEntry 5 (joinpath data [u "wavs"; u "a" ++ u ".wav"]) (u "hello world") false false;
             mkEntry 7 (joinpath data [u "wavs"; u "b" ++ u ".wav"]) (u "say hello") true false ].
    split.
    + repeat constructor; eexists _, _; reflexivity.
    + vm_compute. reflexivity.
  - intros _. vm_compute. discriminate.
Defined.

(** ** Confirmation before the export: C3 *)

(** What [save] leaves alone. *)
Lemma save_frame (play_sound : bool) (overwrite : answer) (dir : Path)
    (objs : list loc) (w : World) :
  _dataset_dir (win w) = Some dir ->
  _objects (win w) = Some objs ->
  let w1 := snd (save play_sound overwrite w) in
  heap w1 = heap w
  /\ _objects (win w1) = Some objs
  /\ _dataset_dir (win w1) = Some dir
  /\ wavList (win w1) = wavList (win w)
  /\ readonly (disk w1) = readonly (disk w)
  /\ files (disk w1) !! csv_file dir = files (disk w) !! csv_file dir.
Proof.
  intros Hdir Hobjs. destruct (startswith (Title (win w)) (u "*")) eqn:Hdirty.
  - rewrite (save_dirty _ _ dir objs) by assumption. unfold save_outcome.
    pose proof (not_eq_sym (csv_history_distinct dir)) as Hh.
    pose proof (not_eq_sym (csv_json_distinct dir)) as Hj.
    destruct (overwrite_asked dir w), overwrite,
      (bool_decide (json_file dir ∈ readonly (disk w))), play_sound,
      (LV.FocusedItem (wavList (win w)) =? NOT_FOUND),
      (bool_decide (history_file dir ∈ readonly (disk w)));
      cbn; rewrite ?Hdir, ?Hobjs; repeat split;
      repeat (first [rewrite (lookup_insert_ne _ _ _ _ Hh)
                    | rewrite (lookup_insert_ne _ _ _ _ Hj)]);
      reflexivity.
  - rewrite save_clean by assumption. cbn. rewrite Hdir, Hobjs. repeat split.
Qed.

Lemma onExportCSV_spec (overwrite export_anyway : answer) (dir : Path) (objs : list loc)
    (w : World) :
  _dataset_dir (win w) = Some dir ->
  _objects (win w) = Some objs ->
  onExportCSV overwrite export_anyway w =
  match save false overwrite w with
  | (Ok _, w1) => export_outcome export_anyway dir objs w1
  | (Raised e, w1) => (Raised e, w1)
  end.
Proof.
  intros Hdir Hobjs.
  destruct (save_frame false overwrite dir objs w Hdir Hobjs)
    as (Hheap & Hobjs1 & Hdir1 & _ & Hro & _).
  unfold onExportCSV. unfold mbind at 1. unfold M_bind at 1.
  destruct (save false overwrite w) as [[b|e] w1]; [|reflexivity].
  cbn [snd] in *. unfold export_outcome, entries.
  munfold. cbn. rewrite Hobjs1. cbn.
  destruct (existsb pending_review (deref (heap w1) objs)); cbn.
  - destruct export_anyway; cbn; [|reflexivity].
    rewrite Hdir1. cbn. rewrite export_path. cbn.
    destruct (bool_decide _); reflexivity.
  - rewrite Hdir1. cbn. rewrite export_path. cbn.
    destruct (bool_decide _); reflexivity.
Qed.



(** A field without delimiter, quote, carriage return or line feed is
    written as it is. *)
Lemma csv_field_plain (f : str) :
  existsb needs_quote f = false -> csv_field f = f.
Proof. intros H. unfold csv_field. rewrite H. reflexivity. Qed.

(** C3, the claim as stated, fails: with one entry that is both deleted and
    pending review, no surviving entry is pending review, and the export
    asks for confirmation all the same. *)
Lemma C3_counterexample :
  existsb (fun o => negb (deleted o) && pending_review o)
          (entries w_deleted_pending [0; 1]%nat) = false
  /\ _objects (win w_deleted_pending) = Some [0; 1]%nat
  /\ In PENDING_REVIEW (ui (run (onExportCSV YES NO) w_deleted_pending)).
Proof.
  split; [vm_compute; reflexivity|]. split; [vm_compute; reflexivity|].
  vm_compute. right. right. left. reflexivity.
Qed.

(** C3, amended: once its [save] has returned, the export asks for
    confirmation, before it writes, exactly when some entry of the session,
    deleted or not, is pending review.  Declining ends the export there: the
    world is as [save] left it but for the question, so the export file is
    untouched and what [save] wrote stays written. *)
Theorem C3_export_confirmation (overwrite export_anyway : answer) (dir : Path)
    (objs : list loc) (w : World) (saved : bool) :
  _dataset_dir (win w) = Some dir ->
  _objects (win w) = Some objs ->
  fst (save false overwrite w) = Ok saved ->
  let w1 := snd (save false overwrite w) in
  let w' := snd (onExportCSV overwrite export_anyway w) in
  (In PENDING_REVIEW (drop (length (ui w1)) (ui w'))
   <-> existsb pending_review (entries w objs) = true)
  /\ (existsb pending_review (entries w objs) = true -> export_anyway = NO ->
      onExportCSV overwrite export_anyway w = (Ok tt, emit PENDING_REVIEW w1)
      /\ files (disk w') !! csv_file dir = files (disk w) !! csv_file dir
      /\ files (disk w') !! json_file dir = files (disk w1) !! json_file dir).
Proof.
  intros Hdir Hobjs Hsave w1 w'.
  destruct (save_frame false overwrite dir objs w Hdir Hobjs)
    as (Hheap & _ & _ & _ & _ & Hcsv).
  subst w' w1. rewrite (onExportCSV_spec _ _ dir objs) by assumption.
  destruct (save false overwrite w) as [[b|e] w1]; [|discriminate].
  cbn [snd] in *. unfold export_outcome, entries in *.
  rewrite Hheap. destruct (existsb pending_review (deref (heap w) objs)).
  - split.
    + split; [reflexivity|]. intros _.
      destruct export_anyway; cbn [is_NO andb];
        [destruct (bool_decide _)|]; cbn [snd ui emit put_file set_disk].
      all: rewrite <- ?app_assoc, drop_app_length; left; reflexivity.
    + intros _ ->. cbn. split; [reflexivity|]. split; [exact Hcsv | reflexivity].
  - split.
    + split; [|discriminate]. cbn [andb].
      destruct (bool_decide _); cbn [snd ui emit put_file set_disk];
        rewrite ?drop_all, ?drop_app_length; cbn; intuition discriminate.
    + discriminate.
Qed.

Lemma C3_witness :
  In PENDING_REVIEW (drop (length (ui (snd (save false YES w_reloaded))))
                          (ui (snd (onExportCSV YES NO w_reloaded))))
  <-> existsb pending_review (entries w_reloaded [0; 1]%nat) = true.
Proof.
  apply (C3_export_confirmation YES NO data [0; 1]%nat w_reloaded false);
    vm_compute; reflexivity.
Defined.

(** ** The export: C5 *)




(** ** Filters and search: C6 and C7 *)

Lemma LV_set_objects_objects (objs : list loc) (v : LV.t) :
  LV._objects (LV.set_objects objs v) = objs.
Proof.
  unfold LV.set_objects, LV.set_focused_item. cbn.
  destruct (0 >=? _); [reflexivity|]. reflexivity.
Qed.

(** The three handlers leave the store and the collection alone. *)
Lemma onFilterSearch_heap (E : regex_engine) (q : str) (r : bool) :
  preserved heap (onFilterSearch E q r).
Proof.
  unfold onFilterSearch, clear_deletedBtn, clear_pendingReviewBtn, session_objects,
    wavList_set_objects, wx_MessageBox, wx_Bell, modify_win. preserved.
Qed.

Lemma onFilterSearch_objects (E : regex_engine) (q : str) (r : bool) :
  preserved (fun w => _objects (win w)) (onFilterSearch E q r).
Proof.
  unfold onFilterSearch, clear_deletedBtn, clear_pendingReviewBtn, session_objects,
    wavList_set_objects, wx_MessageBox, wx_Bell, modify_win.
  preserved.
  all: try (apply preserved_modify; intros w; cbn;
            repeat match goal with |- context [if ?b then _ else _] => destruct b end;
            reflexivity).
Qed.

Ltac break_if :=
  repeat match goal with
         | |- context [if ?b then _ else _] => destruct b eqn:?; cbn
         end.


Lemma onFilterSearch_off (E : regex_engine) (q : str) (r : bool) (objs : list loc) (w : World) :
  searchBtn (win w) = false ->
  _objects (win w) = Some objs ->
  let w' := snd (onFilterSearch E q r w) in
  fst (onFilterSearch E q r w) = Ok tt
  /\ view w' = objs
  /\ active_filters w' = 0%nat.
Proof.
  intros Hbtn Hobjs. unfold onFilterSearch, view, active_filters. munfold.
  destruct w as [h m d evs]. destruct m as [o dd sc t sb pb db v]. cbn in *. subst sb o.
  destruct db, pb; cbn; rewrite ?LV_set_objects_objects; repeat split; reflexivity.
Qed.

Lemma onFilterPendingReview_spec (objs : list loc) (w : World) :
  _objects (win w) = Some objs ->
  let w' := snd (onFilterPendingReview w) in
  fst (onFilterPendingReview w) = Ok tt
  /\ searchBtn (win w') = false
  /\ deletedBtn (win w') = false
  /\ pendingReviewBtn (win w') = pendingReviewBtn (win w)
  /\ view w' = if pendingReviewBtn (win w)
               then List.filter (attr (heap w) pending_review) objs
               else objs.
Proof.
  intros Hobjs. unfold onFilterPendingReview, view. munfold.
  destruct w as [h m d evs]. destruct m as [o dd sc t sb pb db v]. cbn in *. subst o.
  destruct sb, db, pb; cbn; rewrite ?LV_set_objects_objects; repeat split; reflexivity.
Qed.

Lemma onFilterDeleted_spec (objs : list loc) (w : World) :
  _objects (win w) = Some objs ->
  let w' := snd (onFilterDeleted w) in
  fst (onFilterDeleted w) = Ok tt
  /\ searchBtn (win w') = false
  /\ pendingReviewBtn (win w') = false
  /\ deletedBtn (win w') = deletedBtn (win w)
  /\ view w' = if deletedBtn (win w)
               then List.filter (attr (heap w) deleted) objs
               else objs.
Proof.
  intros Hobjs. unfold onFilterDeleted, view. munfold.
  destruct w as [h m d evs]. destruct m as [o dd sc t sb pb db v]. cbn in *. subst o.
  destruct sb, db, pb; cbn; rewrite ?LV_set_objects_objects; repeat split; reflexivity.
Qed.

Lemma onFilterPendingReview_heap : preserved heap onFilterPendingReview.
Proof.
  unfold onFilterPendingReview, clear_deletedBtn, clear_searchBtn, session_objects,
    wavList_set_objects, modify_win. preserved.
Qed.

Lemma onFilterDeleted_heap : preserved heap onFilterDeleted.
Proof.
  unfold onFilterDeleted, clear_pendingReviewBtn, clear_searchBtn, session_objects,
    wavList_set_objects, modify_win. preserved.
Qed.

Ltac preserved_window :=
  preserved;
  try (apply preserved_modify; intros w; cbn;
       repeat match goal with |- context [if ?b then _ else _] => destruct b end;
       reflexivity).

Lemma onFilterPendingReview_objects :
  preserved (fun w => _objects (win w)) onFilterPendingReview.
Proof.
  unfold onFilterPendingReview, clear_deletedBtn, clear_searchBtn, session_objects,
    wavList_set_objects, modify_win. preserved_window.
Qed.

Lemma onFilterDeleted_objects :
  preserved (fun w => _objects (win w)) onFilterDeleted.
Proof.
  unfold onFilterDeleted, clear_pendingReviewBtn, clear_searchBtn, session_objects,
    wavList_set_objects, modify_win. preserved_window.
Qed.

(** After any of the three handlers, however it ends, at most one filter
    button is on. *)
Lemma filters_exclusive (E : regex_engine) (q : str) (r : bool) (w : World) :
  (active_filters (snd (onFilterSearch E q r w)) <= 1)%nat
  /\ (active_filters (snd (onFilterPendingReview w)) <= 1)%nat
  /\ (active_filters (snd (onFilterDeleted w)) <= 1)%nat.
Proof.
  unfold active_filters, onFilterSearch, onFilterPendingReview, onFilterDeleted. munfold.
  destruct w as [h m d evs]. destruct m as [o dd sc t sb pb db v]. cbn.
  split; [|split].
  - destruct db, pb, sb; cbn; try (destruct o; cbn; lia);
      destruct (str_eqb q []); cbn; try lia;
      destruct r; cbn;
      try (destruct (re_compile E q) as [reg|]; cbn; try lia);
      match goal with |- context [List.filter ?f ?l] => destruct (List.filter f l) end;
      cbn; lia.
  - destruct sb, db, o, pb; cbn; lia.
  - destruct sb, pb, o, db; cbn; lia.
Qed.

(** A filtered view holds entries of the list it was taken from, in their
    order. *)
Lemma filter_sublist {A : Type} (f : A -> bool) (l : list A) : sublist (List.filter f l) l.
Proof.
  induction l as [|x l IH]; cbn; [constructor|].
  destruct (f x); [apply sublist_skip | apply sublist_cons]; exact IH.
Qed.






(** C7, on the program: with the pending-review filter on, a click on the
    search button switches that filter off and then searches the list that
    was on display, not the collection.  The view is the one pending entry,
    although both entries of the collection contain [hello]. *)
Lemma C7_search_keeps_previous_filter :
  let w1 := run click_pendingReviewBtn w_reloaded in
  let w2 := run (click_searchBtn small_engine (u "hello") false) w1 in
  _objects (win w2) = Some [0; 1]%nat
  /\ pendingReviewBtn (win w2) = false
  /\ searchBtn (win w2) = true
  /\ view w2 = [1%nat]
  /\ List.filter (attr (heap w2) (fun o => contains (transcript o) (u "hello"))) [0; 1]%nat
     = [0; 1]%nat.
Proof. repeat split; vm_compute; reflexivity. Qed.

(** ** What the loader makes *)

Lemma entries_of_rows_loaded (dir : Path) (rows : list (list str)) :
  Forall (fun o => loaded_path (wavpath o)) (entries_of_rows dir rows).
Proof.
  apply List.Forall_forall. intros o Ho. unfold entries_of_rows in Ho.
  apply in_flat_map in Ho as ([i row] & _ & Ho). cbn in Ho.
  destruct row as [|first row]; [contradiction|].
  destruct Ho as [<-|[]]. exists dir, first. reflexivity.
Qed.

Lemma entry_of_json_loaded (dir : Path) (entry : json) (o : WavAndTranscript) :
  entry_of_json dir entry = Ok o -> loaded_path (wavpath o).
Proof.
  unfold entry_of_json. intros H.
  repeat match type of H with
         | match ?x with _ => _ end = _ => destruct x; try discriminate
         end.
  injection H as <-. eexists _, _. reflexivity.
Qed.

Lemma entries_of_json_loaded (dir : Path) (items : list json) (os : list WavAndTranscript) :
  entries_of_json dir items = Ok os ->
  Forall (fun o => loaded_path (wavpath o)) os.
Proof.
  revert os. induction items as [|entry items IH]; intros os H; cbn in H.
  - injection H as <-. constructor.
  - destruct (entry_of_json dir entry) as [o|] eqn:Ho; [|discriminate].
    destruct (entries_of_json dir items) as [os'|]; [|discriminate].
    injection H as <-. constructor; [eapply entry_of_json_loaded, Ho | apply IH; reflexivity].
Qed.

(** The collection of a session just opened is sorted by index. *)
Lemma opened_sorted (dir : Path) (src : bool) (os : list WavAndTranscript) (w : World) :
  exists objs,
    _objects (win (opened dir src os w)) = Some objs
    /\ Sorted (le_by idx) (entries (opened dir src os w) objs).
Proof.
  destruct (opened_entries dir src os w) as (objs & Hobjs & _ & Hentries & _).
  exists objs. split; [exact Hobjs|]. rewrite Hentries. apply sort_by_sorted.
Qed.

(** ** Index stability *)

Lemma alter_keeps {X : Type} (f : WavAndTranscript -> WavAndTranscript)
    (g : WavAndTranscript -> X) (l : loc) (h : store) :
  (forall o, g (f o) = g o) -> List.map g (alter f l h) = List.map g h.
Proof.
  intros Hg. revert l. induction h as [|o h IH]; intros [|l]; cbn; try reflexivity.
  - rewrite Hg. reflexivity.
  - f_equal. apply IH.
Qed.

(** The three edits of the focused entry change neither an index nor an
    audio path, and leave the collection as it is. *)
Lemma edit_transcript_identity (text : str) (o : WavAndTranscript) :
  idx (fst (edit_transcript text o)) = idx o
  /\ wavpath (fst (edit_transcript text o)) = wavpath o.
Proof. unfold edit_transcript. destruct (negb _); split; reflexivity. Qed.

Lemma edits_keep_identity (text : str) :
  let id := fun w => (List.map idx (heap w), List.map wavpath (heap w), _objects (win w)) in
  preserved id (onTextChanged text) /\ preserved id onEdit /\ preserved id onDelete.
Proof.
  intros id. subst id. unfold onTextChanged, onEdit, onDelete,
    wavList_get_selected, mutate, set_title, play_file, wx_Bell, modify_win.
  split; [|split]; preserved.
  all: apply preserved_modify; intros ?; cbn;
    rewrite !alter_keeps by (intros; first [reflexivity | apply edit_transcript_identity]);
    reflexivity.
Qed.

(** ** Literal patterns of the small engine *)

Lemma matches_literal (q w : str) : matches (cat_all (List.map Chr q)) w <-> w = q.
Proof.
  revert w. induction q as [|c q IH]; intros w; cbn.
  - split; [intros H; inversion H; reflexivity | intros ->; constructor].
  - split.
    + intros H. inversion H as [| | |r1 r2 w1 w2 H1 H2| | | |]; subst.
      inversion H1; subst. apply IH in H2. subst. reflexivity.
    + intros ->. apply (m_cat _ _ [c] q); [constructor | apply IH; reflexivity].
Qed.

(** A literal pattern matches the texts that start with it. *)
Lemma match_prefix_literal (q s : str) :
  match_prefix (cat_all (List.map Chr q)) s = startswith s q.
Proof.
  apply eq_true_iff_eq. rewrite match_prefix_spec, startswith_spec. split.
  - intros (w & rest & -> & Hm). apply matches_literal in Hm. subst. exists rest. reflexivity.
  - intros (rest & ->). exists q, rest. split; [reflexivity | apply matches_literal; reflexivity].
Qed.

Lemma tokens_literal (q : str) :
  forallb (fun c => negb (is_meta c)) q = true -> tokens q = Some (List.map TChr q).
Proof.
  induction q as [|c q IH]; cbn [forallb tokens List.map]; [reflexivity|].
  intros H. apply andb_true_iff in H as [Hc Hq]. apply negb_true_iff in Hc.
  assert (Hb : chr_eqb c backslash = false).
  { destruct (chr_eqb c backslash) eqn:E; [|reflexivity].
    apply chr_eqb_eq in E. subst. discriminate. }
  assert (Hd : chr_eqb c dot = false).
  { destruct (chr_eqb c dot) eqn:E; [|reflexivity].
    apply chr_eqb_eq in E. subst. discriminate. }
  assert (Hs : chr_eqb c star = false).
  { destruct (chr_eqb c star) eqn:E; [|reflexivity].
    apply chr_eqb_eq in E. subst. discriminate. }
  rewrite Hb, Hd, Hs, Hc, IH by assumption. reflexivity.
Qed.

Lemma build_literal (q : str) (acc : list (re * bool)) :
  build acc (List.map TChr q)
  = Some (rev (List.map (fun c => (Chr c, false)) q) ++ acc).
Proof.
  revert acc. induction q as [|c q IH]; intros acc; cbn; [reflexivity|].
  rewrite IH, <- app_assoc. reflexivity.
Qed.

(** A query without special characters compiles to the literal pattern. *)
Lemma small_compile_literal (q : str) :
  forallb (fun c => negb (is_meta c)) q = true ->
  small_compile q = Some (cat_all (List.map Chr q)).
Proof.
  intros H. unfold small_compile. rewrite (tokens_literal _ H), build_literal.
  rewrite app_nil_r, rev_involutive, List.map_map. reflexivity.
Qed.

(** ** Every session *)

Lemma attr_idx_map (h : store) (l : loc) :
  attr_idx h l = default 0 (List.map idx h !! l).
Proof.
  unfold attr_idx. change (List.map idx h) with (idx <$> h).
  rewrite list_lookup_fmap. destruct (h !! l); reflexivity.
Qed.

Lemma valid_refs_length (h h' : store) (ls : list loc) :
  length h = length h' -> valid_refs h ls -> valid_refs h' ls.
Proof.
  intros Hlen H. unfold valid_refs in *. eapply List.Forall_impl; [|exact H].
  intros l Hl. apply lookup_lt_is_Some. rewrite <- Hlen. apply lookup_lt_is_Some. exact Hl.
Qed.

Lemma Sorted_ext {A : Type} (k1 k2 : A -> Z) (l : list A) :
  (forall x, k1 x = k2 x) -> Sorted (le_by k1) l -> Sorted (le_by k2) l.
Proof.
  intros H. induction 1 as [|x l Hs IH Hhd]; constructor; [exact IH|].
  destruct Hhd; constructor. unfold le_by in *. rewrite <- !H. assumption.
Qed.

Lemma Forall_map_eq {A B : Type} (f : A -> B) (P : B -> Prop) (l l' : list A) :
  List.map f l = List.map f l' -> Forall (fun x => P (f x)) l -> Forall (fun x => P (f x)) l'.
Proof.
  intros H Hl. apply List.Forall_map. rewrite <- H. apply List.Forall_map. exact Hl.
Qed.

(** A step that keeps the shape and takes its view from the old view or
    from the collection keeps the invariant. *)
Lemma session_inv_step (w w' : World) :
  shape w' = shape w ->
  (sublist (view w') (view w)
   \/ exists objs, _objects (win w) = Some objs /\ sublist (view w') objs) ->
  session_inv w -> session_inv w'.
Proof.
  unfold shape. intros [= Hidx Hpath Hobjs] Hview [Hpaths Hsession]. split.
  - eapply (Forall_map_eq wavpath loaded_path); [symmetry; exact Hpath | exact Hpaths].
  - rewrite Hobjs. destruct (_objects (win w)) as [objs|].
    + destruct Hsession as (Hvalid & Hsorted & Hsub). split; [|split].
      * eapply valid_refs_length; [|exact Hvalid].
        apply (f_equal (@length Z)) in Hidx. rewrite !length_map in Hidx. congruence.
      * eapply Sorted_ext; [|exact Hsorted]. intros l. rewrite !attr_idx_map, Hidx.
        reflexivity.
      * destruct Hview as [Hv|(objs' & [= <-] & Hv)]; [etransitivity; eassumption | exact Hv].
    + destruct Hview as [Hv|(objs' & [=] & _)]. rewrite Hsession in Hv.
      apply sublist_nil_r in Hv. exact Hv.
Qed.

Lemma LV_set_focused_item_objects (i : Z) (v : LV.t) :
  LV._objects (LV.set_focused_item i v) = LV._objects v.
Proof.
  unfold LV.set_focused_item. destruct (i >=? LV.ItemCount v), (i <? 0); reflexivity.
Qed.

Ltac preserved_shape :=
  preserved;
  try (apply preserved_modify; intros ?; unfold shape, view; cbn;
       rewrite ?LV_set_focused_item_objects;
       rewrite ?alter_keeps by (intros; first [reflexivity | apply edit_transcript_identity]);
       reflexivity).

(** Editing, moving the focus, saving and exporting keep the shape and the
    view. *)
Lemma quiet_actions (E : regex_engine) (a : action) :
  match a with
  | Open _ _ | ClickSearch _ _ | SearchShortcut _ _ | ClickPendingReview | ClickDeleted
  | CloseDataset _ _ => True
  | _ => preserved (fun w => (shape w, view w)) (perform E a)
  end.
Proof.
  destruct a; try exact I; cbn [perform];
    unfold onTextChanged, onEdit, onDelete, onNextItem, onPrevItem, onSave, onExportCSV,
      save, load_name, wavList_get_selected, wavList_set_focused_item, GetFocusedItem,
      mutate, set_title, play_file, wx_Bell, wx_MessageBox_YES_NO, wx_MessageBox,
      has_unsaved_edits, dataset_dir, session_objects, write_file, modify_win;
    preserved_shape.
Qed.

(** The three filter handlers keep the shape, and show entries of the list
    that was on display or of the collection, in their order. *)
Lemma filter_handlers_views (E : regex_engine) (q : str) (r : bool) (w : World) :
  (shape (snd (onFilterSearch E q r w)) = shape w
   /\ view_from w (snd (onFilterSearch E q r w)))
  /\ (shape (snd (onFilterPendingReview w)) = shape w
      /\ view_from w (snd (onFilterPendingReview w)))
  /\ (shape (snd (onFilterDeleted w)) = shape w
      /\ view_from w (snd (onFilterDeleted w))).
Proof.
  unfold view_from, shape, view, onFilterSearch, onFilterPendingReview, onFilterDeleted.
  munfold. destruct w as [h m d evs]. destruct m as [o dd sc t sb pb db v]. cbn.
  split; [|split].
  - destruct db, pb, sb; cbn;
      try (destruct o as [objs|]; cbn; rewrite ?LV_set_objects_objects;
           (split; [reflexivity|]); [right; exists objs; split; reflexivity | left; reflexivity]);
      destruct (str_eqb q []); cbn; try (split; [reflexivity | left; reflexivity]);
      destruct r; cbn;
      try (destruct (re_compile E q) as [reg|]; cbn;
           [|split; [reflexivity | left; reflexivity]]);
      match goal with |- context [List.filter ?f ?l] =>
        pose proof (filter_sublist f l) as Hsub; destruct (List.filter f l) end;
      cbn; rewrite ?LV_set_objects_objects;
      (split; [reflexivity | left; first [reflexivity | exact Hsub]]).
  - destruct sb, db, o as [objs|], pb; cbn; rewrite ?LV_set_objects_objects;
      (split; [reflexivity|]);
      first [ left; reflexivity
            | right; exists objs; split; [reflexivity|];
              first [reflexivity | apply filter_sublist] ].
  - destruct sb, pb, o as [objs|], db; cbn; rewrite ?LV_set_objects_objects;
      (split; [reflexivity|]);
      first [ left; reflexivity
            | right; exists objs; split; [reflexivity|];
              first [reflexivity | apply filter_sublist] ].
Qed.

Lemma Sorted_ext_in {A : Type} (k1 k2 : A -> Z) (l : list A) :
  (forall x, In x l -> k1 x = k2 x) -> Sorted (le_by k1) l -> Sorted (le_by k2) l.
Proof.
  intros H Hs. induction Hs as [|x l Hs IH Hhd]; constructor.
  - apply IH. intros y Hy. apply H. right. exact Hy.
  - destruct Hhd as [|y l' Hxy]; constructor. unfold le_by in *.
    rewrite <- (H x), <- (H y) by (cbn; auto). exact Hxy.
Qed.

Lemma attr_idx_app (h os : store) (l : loc) :
  is_Some (h !! l) -> attr_idx (h ++ os) l = attr_idx h l.
Proof.
  intros Hl. unfold attr_idx. rewrite lookup_app_l by (apply lookup_lt_is_Some, Hl).
  reflexivity.
Qed.

Lemma valid_refs_app (h os : store) (ls : list loc) :
  valid_refs h ls -> valid_refs (h ++ os) ls.
Proof.
  unfold valid_refs. intros H. eapply List.Forall_impl; [|exact H].
  intros l Hl. apply lookup_lt_is_Some. rewrite length_app.
  apply lookup_lt_is_Some in Hl. lia.
Qed.

(** New objects made by the loader keep the invariant. *)
Lemma session_inv_allocate (os : list WavAndTranscript) (m : MainWindow) (w : World) :
  Forall (fun o => loaded_path (wavpath o)) os ->
  _objects m = _objects (win w) ->
  wavList m = wavList (win w) ->
  session_inv w ->
  session_inv (mkWorld (heap w ++ os) m (disk w) (ui w)).
Proof.
  intros Hos Hobjs Hlist [Hpaths Hsession]. split; cbn.
  - apply Forall_app. split; assumption.
  - unfold view in *. cbn. rewrite Hobjs, Hlist.
    destruct (_objects (win w)) as [objs|]; [|exact Hsession].
    destruct Hsession as (Hvalid & Hsorted & Hsub). split; [|split].
    + apply valid_refs_app, Hvalid.
    + eapply Sorted_ext_in; [|exact Hsorted]. intros l Hl. symmetry.
      apply attr_idx_app. unfold valid_refs in Hvalid.
      rewrite List.Forall_forall in Hvalid. apply Hvalid, Hl.
    + exact Hsub.
Qed.

Lemma session_inv_window (m : MainWindow) (d : FileSystem) (evs : list ui_event) (w : World) :
  _objects m = _objects (win w) ->
  wavList m = wavList (win w) ->
  session_inv w ->
  session_inv (mkWorld (heap w) m d evs).
Proof.
  intros Hobjs Hlist [Hpaths Hsession]. split; [exact Hpaths|].
  unfold view in *. cbn. rewrite Hobjs, Hlist. exact Hsession.
Qed.

(** A session whose list on display is the collection. *)
Lemma session_inv_shown (objs : list loc) (w : World) :
  Forall (fun o => loaded_path (wavpath o)) (heap w) ->
  _objects (win w) = Some objs ->
  view w = objs ->
  valid_refs (heap w) objs ->
  Sorted (le_by (attr_idx (heap w))) objs ->
  session_inv w.
Proof.
  intros Hpaths Hobjs Hview Hvalid Hsorted. split; [exact Hpaths|].
  rewrite Hobjs, Hview. repeat split; [assumption | assumption | reflexivity].
Qed.

Lemma load_objects_inv (dir f : Path) (w : World) :
  session_inv w ->
  match load_objects dir f w with
  | (Ok locs, w') =>
      session_inv w' /\ valid_refs (heap w') locs
  | (Raised _, w') => session_inv w'
  end.
Proof.
  intros Hinv. unfold load_objects.
  destruct (str_eqb (suffix f) (u ".json")); munfold; cbn.
  - destruct (files (disk w) !! f) as [[s|doc]|]; cbn;
      try (apply session_inv_window; [reflexivity | reflexivity | exact Hinv]).
    destruct (iterate doc) as [items|]; cbn;
      try (apply session_inv_window; [reflexivity | reflexivity | exact Hinv]).
    destruct (entries_of_json dir items) as [os|] eqn:Hos; cbn;
      try (apply session_inv_window; [reflexivity | reflexivity | exact Hinv]).
    split; [|apply valid_refs_seq].
    apply (session_inv_allocate os _ w); try reflexivity; try assumption.
    eapply entries_of_json_loaded, Hos.
  - destruct (files (disk w) !! f) as [[s|doc]|]; cbn;
      try (apply session_inv_window; [reflexivity | reflexivity | exact Hinv]).
    destruct (csv_reader_rows s) as [rows|]; cbn;
      try (apply session_inv_window; [reflexivity | reflexivity | exact Hinv]).
    split; [|apply valid_refs_seq].
    apply (session_inv_allocate _ _ w); try reflexivity; try assumption.
    apply entries_of_rows_loaded.
Qed.

Lemma show_session_inv (dir : Path) (locs : list loc) (w : World) :
  Forall (fun o => loaded_path (wavpath o)) (heap w) ->
  valid_refs (heap w) locs ->
  session_inv (snd (show_session dir locs w)).
Proof.
  intros Hpaths Hvalid.
  assert (Hvalid' : valid_refs (heap w) (sort_by (attr_idx (heap w)) locs)).
  { eapply valid_refs_perm; [|exact Hvalid]. symmetry. apply sort_by_perm. }
  pose proof (sort_by_sorted (attr_idx (heap w)) locs) as Hsorted.
  unfold show_session. munfold. cbn.
  destruct (files (disk w) !! joinpath dir [u ".last_idx"]) as [[s|doc]|]; cbn.
  - destruct (py_int s); cbn;
      apply (session_inv_shown (sort_by (attr_idx (heap w)) locs)); try assumption;
      try reflexivity; unfold view; cbn;
      rewrite ?LV_set_focused_item_objects; apply LV_set_objects_objects.
  - destruct doc; cbn;
      apply (session_inv_shown (sort_by (attr_idx (heap w)) locs)); try assumption;
      try reflexivity; unfold view; cbn;
      rewrite ?LV_set_focused_item_objects; apply LV_set_objects_objects.
  - destruct (bool_decide _); cbn;
      apply (session_inv_shown (sort_by (attr_idx (heap w)) locs)); try assumption;
      try reflexivity; unfold view; cbn;
      rewrite ?LV_set_focused_item_objects; apply LV_set_objects_objects.
Qed.

Lemma onOpen_inv (chosen_dir : str) (reload : answer) (w : World) :
  session_inv w -> session_inv (snd (onOpen chosen_dir reload w)).
Proof.
  intros Hinv. unfold onOpen.
  destruct (str_eqb chosen_dir []); [exact Hinv|].
  unfold path_exists, is_file. rewrite bind_gets.
  destruct (negb _).
  { apply (session_inv_window _ _ _ w); [reflexivity | reflexivity | exact Hinv]. }
  rewrite bind_gets. destruct (negb _).
  { apply (session_inv_window _ _ _ w); [reflexivity | reflexivity | exact Hinv]. }
  rewrite bind_gets.
  assert (Hrest : forall f w0, session_inv w0 ->
            session_inv (snd ((load_objects (parse_path chosen_dir) f
                               ≫= show_session (parse_path chosen_dir)) w0))).
  { intros f w0 Hw0. unfold mbind, M_bind.
    pose proof (load_objects_inv (parse_path chosen_dir) f w0 Hw0) as Hload.
    destruct (load_objects (parse_path chosen_dir) f w0) as [[locs|e] w1]; cbn.
    - destruct Hload as [[Hpaths _] Hvalid]. apply show_session_inv; assumption.
    - exact Hload. }
  destruct (bool_decide _).
  - rewrite bind_assoc, bind_ask, bind_ret. apply Hrest.
    apply (session_inv_window _ _ _ w); [reflexivity | reflexivity | exact Hinv].
  - rewrite bind_ret. apply Hrest. exact Hinv.
Qed.

Lemma keeps_bind {A B : Type} (P : World -> Prop) (m : M A) (f : A -> M B) :
  keeps P m -> (forall a, keeps P (f a)) -> keeps P (m ≫= f).
Proof.
  intros Hm Hf w Hw. unfold mbind, M_bind. specialize (Hm w Hw).
  destruct (m w) as [[a|e] w1]; cbn in *; [apply Hf|]; exact Hm.
Qed.

Lemma keeps_ret {A : Type} (P : World -> Prop) (a : A) : keeps P (mret a).
Proof. intros w Hw. exact Hw. Qed.

Lemma keeps_raise {A : Type} (P : World -> Prop) (e : exn) : keeps P (raise (A:=A) e).
Proof. intros w Hw. exact Hw. Qed.

Lemma keeps_gets {A : Type} (P : World -> Prop) (f : World -> A) : keeps P (gets f).
Proof. intros w Hw. exact Hw. Qed.

Lemma keeps_modify (P : World -> Prop) (f : World -> World) :
  (forall w, P w -> P (f w)) -> keeps P (modify f).
Proof. intros H w Hw. apply H, Hw. Qed.

(** What keeps the shape and the view keeps the invariant. *)
Lemma keeps_quiet {A : Type} (m : M A) :
  preserved (fun w => (shape w, view w)) m -> keeps session_inv m.
Proof.
  intros Hp w Hinv. specialize (Hp w). cbv beta in Hp.
  apply (session_inv_step w); [congruence | left; replace (view (snd (m w))) with (view w) by congruence; reflexivity | exact Hinv].
Qed.

Lemma save_quiet (play_sound : bool) (overwrite : answer) :
  preserved (fun w => (shape w, view w)) (save play_sound overwrite).
Proof.
  unfold save, wavList_get_selected, GetFocusedItem, set_title, play_file, wx_Bell,
    wx_MessageBox_YES_NO, wx_MessageBox, has_unsaved_edits, dataset_dir, session_objects,
    write_file, modify_win.
  preserved_shape.
Qed.

Lemma onTextChanged_quiet (text : str) :
  preserved (fun w => (shape w, view w)) (onTextChanged text).
Proof. exact (quiet_actions small_engine (TextChanged text)). Qed.

(** Closing the dataset keeps the invariant: when it gets to the end, the
    session is gone and the list is empty. *)
Lemma onCloseDataset_inv (save_first overwrite : answer) :
  keeps session_inv (onCloseDataset save_first overwrite).
Proof.
  unfold onCloseDataset, transcriptTextCtrl_SetValue.
  apply keeps_bind; [apply keeps_gets | intros dirty].
  apply keeps_bind.
  { destruct dirty; [|apply keeps_ret].
    apply keeps_bind.
    - unfold wx_MessageBox_YES_NO, wx_MessageBox. apply keeps_bind; [|intros; apply keeps_ret].
      apply keeps_modify. intros w Hw.
      apply (session_inv_window _ _ _ w); [reflexivity | reflexivity | exact Hw].
    - intros [|]; [|apply keeps_ret].
      apply keeps_bind; [apply keeps_quiet, save_quiet | intros; apply keeps_ret]. }
  intros _. apply keeps_bind; [apply keeps_quiet, onTextChanged_quiet | intros _].
  intros w [Hpaths _]. unfold wavList_set_objects, set_title, modify_win. munfold. cbn.
  split; [exact Hpaths|]. cbn. unfold view. cbn. apply LV_set_objects_objects.
Qed.

Lemma perform_inv (E : regex_engine) (a : action) (w : World) :
  session_inv w -> session_inv (snd (perform E a w)).
Proof.
  intros Hinv.
  assert (Hquiet : preserved (fun w => (shape w, view w)) (perform E a) ->
                   session_inv (snd (perform E a w))).
  { intros Hp. specialize (Hp w). cbv beta in Hp.
    assert (Hshape : shape (snd (perform E a w)) = shape w) by congruence.
    assert (Hview : view (snd (perform E a w)) = view w) by congruence.
    apply (session_inv_step w); [exact Hshape | left; rewrite Hview; reflexivity | exact Hinv]. }
  assert (Hfilter : forall w0 w', shape w0 = shape w -> view w0 = view w ->
                    shape w' = shape w0 /\ view_from w0 w' -> session_inv w').
  { intros w0 w' Hshape Hview [Hs Hv]. apply (session_inv_step w); [congruence | | exact Hinv].
    destruct Hv as [Hv|(objs & Hobjs & Hv)]; [left; rewrite <- Hview; exact Hv|].
    right. exists objs. split; [|exact Hv].
    unfold shape in Hshape. injection Hshape as _ _ <-. exact Hobjs. }
  pose proof (quiet_actions E a) as Hq.
  destruct a; try (apply Hquiet, Hq); cbn [perform].
  - apply onOpen_inv, Hinv.
  - unfold click_searchBtn, modify_win. rewrite bind_modify.
    set (w0 := set_win (set_searchBtn (negb (searchBtn (win w))) (win w)) w).
    destruct (filter_handlers_views E search_string is_regex w0) as (H & _ & _).
    exact (Hfilter w0 _ eq_refl eq_refl H).
  - destruct (filter_handlers_views E search_string is_regex w) as (H & _ & _).
    exact (Hfilter w _ eq_refl eq_refl H).
  - unfold click_pendingReviewBtn, modify_win. rewrite bind_modify.
    set (w0 := set_win (set_pendingReviewBtn (negb (pendingReviewBtn (win w))) (win w)) w).
    destruct (filter_handlers_views E [] false w0) as (_ & H & _).
    exact (Hfilter w0 _ eq_refl eq_refl H).
  - unfold click_deletedBtn, modify_win. rewrite bind_modify.
    set (w0 := set_win (set_deletedBtn (negb (deletedBtn (win w))) (win w)) w).
    destruct (filter_handlers_views E [] false w0) as (_ & _ & H).
    exact (Hfilter w0 _ eq_refl eq_refl H).
  - apply onCloseDataset_inv, Hinv.
Qed.

(** In every world the program can reach: the audio paths are those the
    loader makes; the collection refers to objects of the store and is
    sorted by index; the list on display holds entries of the collection in
    their order. *)
Theorem reachable_session_inv (E : regex_engine) (w : World) :
  reachable E w -> session_inv w.
Proof.
  induction 1 as [d|a w Hw IH].
  - split; [constructor | reflexivity].
  - apply perform_inv, IH.
Qed.

Lemma deref_in (h : store) (ls : list loc) (o : WavAndTranscript) :
  In o (deref h ls) -> In o h.
Proof.
  unfold deref. intros H. apply list_elem_of_In, list_elem_of_omap in H as (l & _ & Hl).
  apply list_elem_of_In. eapply list_elem_of_lookup_2, Hl.
Qed.

Lemma deref_sorted (h : store) (ls : list loc) :
  valid_refs h ls -> Sorted (le_by (attr_idx h)) ls -> Sorted (le_by idx) (deref h ls).
Proof.
  induction 1 as [|l ls [o Hl] Hls IH]; intros Hs; [constructor|].
  rewrite (deref_cons _ _ o) by assumption. inversion Hs as [|? ? Hs' Hhd]; subst.
  constructor; [apply IH, Hs'|].
  destruct Hls as [|l' ls' [o' Hl'] Hls']; [constructor|].
  rewrite (deref_cons _ _ o') by assumption. constructor.
  inversion Hhd as [|? ? Hle]; subst. unfold le_by in *.
  rewrite (attr_idx_lookup _ _ _ Hl), (attr_idx_lookup _ _ _ Hl') in Hle. exact Hle.
Qed.

(** The entries of every session are in ascending order of index, and the
    document [save] writes for them is one that the round trip applies
    to. *)
Corollary reachable_sorted (E : regex_engine) (w : World) (objs : list loc) :
  reachable E w -> _objects (win w) = Some objs ->
  Sorted (le_by idx) (entries w objs)
  /\ produced_by_save (JArr (List.map JObj (saved_records (entries w objs))))
  /\ sublist (view w) objs.
Proof.
  intros Hw Hobjs. destruct (reachable_session_inv E w Hw) as [Hpaths Hsession].
  rewrite Hobjs in Hsession. destruct Hsession as (Hvalid & Hsorted & Hsub).
  split; [apply deref_sorted; assumption|]. split; [|exact Hsub].
  exists (entries w objs). split; [|reflexivity].
  apply List.Forall_forall. intros o Ho. apply deref_in in Ho.
  rewrite List.Forall_forall in Hpaths. apply Hpaths, Ho.
Qed.

(** At most one filter button is on in every world the program can
    reach. *)
Lemma other_actions_buttons (E : regex_engine) (a : action) :
  match a with
  | ClickSearch _ _ | SearchShortcut _ _ | ClickPendingReview | ClickDeleted => True
  | _ => preserved active_filters (perform E a)
  end.
Proof.
  destruct a; try exact I; cbn [perform];
    unfold onOpen, load_objects, show_session, read_history, json_load, csv_load, lift,
      allocate, is_file, path_exists, wavList_set_objects,
      onCloseDataset, transcriptTextCtrl_SetValue,
      onTextChanged, onEdit, onDelete, onNextItem, onPrevItem, onSave, onExportCSV,
      save, load_name, wavList_get_selected, wavList_set_focused_item, GetFocusedItem,
      mutate, set_title, play_file, wx_Bell, wx_MessageBox_YES_NO, wx_MessageBox,
      has_unsaved_edits, dataset_dir, session_objects, write_file, modify_win;
    preserved.
Qed.

Theorem reachable_filters_exclusive (E : regex_engine) (w : World) :
  reachable E w -> (active_filters w <= 1)%nat.
Proof.
  induction 1 as [d|a w Hw IH].
  - cbn. lia.
  - pose proof (other_actions_buttons E a) as Hq.
    destruct a; try (rewrite Hq; exact IH); cbn [perform].
    + unfold click_searchBtn, modify_win. rewrite bind_modify.
      set (w0 := set_win (set_searchBtn (negb (searchBtn (win w))) (win w)) w).
      exact (proj1 (filters_exclusive E search_string is_regex w0)).
    + exact (proj1 (filters_exclusive E search_string is_regex w)).
    + unfold click_pendingReviewBtn, modify_win. rewrite bind_modify.
      set (w0 := set_win (set_pendingReviewBtn (negb (pendingReviewBtn (win w))) (win w)) w).
      exact (proj1 (proj2 (filters_exclusive E [] false w0))).
    + unfold click_deletedBtn, modify_win. rewrite bind_modify.
      set (w0 := set_win (set_deletedBtn (negb (deletedBtn (win w))) (win w)) w).
      exact (proj2 (proj2 (filters_exclusive E [] false w0))).
Qed.

(** What [save] writes in any session the program can reach is a document
    the round trip applies to. *)
Lemma session_save_produced (E : regex_engine) (play_sound : bool) (overwrite : answer)
    (dir : Path) (objs : list loc) (w : World) :
  reachable E w ->
  _dataset_dir (win w) = Some dir ->
  _objects (win w) = Some objs ->
  fst (save play_sound overwrite w) = Ok true ->
  exists doc,
    files (disk (snd (save play_sound overwrite w))) !! json_file dir = Some (FJson doc)
    /\ produced_by_save doc.
Proof.
  intros Hw Hdir Hobjs Hsave. eexists. split.
  - apply (save_true_json _ _ dir objs); assumption.
  - apply (reachable_sorted E w objs Hw Hobjs).
Qed.

Lemma Sorted_filter_by {A : Type} (key : A -> Z) (f : A -> bool) (l : list A) :
  Sorted (le_by key) l -> Sorted (le_by key) (List.filter f l).
Proof.
  intros Hs. apply Sorted_StronglySorted in Hs.
  - apply StronglySorted_Sorted. induction Hs as [|x l Hs IH Hall]; cbn; [constructor|].
    destruct (f x); [|exact IH]. constructor; [exact IH|].
    rewrite List.Forall_forall in *. intros y Hy. apply Hall.
    apply filter_In in Hy. tauto.
  - intros a b c. unfold le_by. lia.
Qed.

(** In every session the program can reach, the rows of the export follow
    the entries in ascending order of index. *)
Lemma exported_entries_sorted (E : regex_engine) (w : World) (objs : list loc) :
  reachable E w -> _objects (win w) = Some objs ->
  Sorted (le_by idx) (List.filter (fun o => negb (deleted o)) (entries w objs)).
Proof.
  intros Hw Hobjs. apply Sorted_filter_by. apply (reachable_sorted E w objs Hw Hobjs).
Qed.

(** For a query without special characters, the regex mode of the small
    engine keeps the transcripts that start with the query, where the plain
    mode keeps those that contain it. *)
Lemma literal_search_anchored (q : str) :
  forallb (fun c => negb (is_meta c)) q = true ->
  exists reg, re_compile small_engine q = Some reg
              /\ forall s, re_match small_engine reg s = startswith s q.
Proof.
  intros Hq. exists (cat_all (List.map Chr q)). split.
  - apply small_compile_literal, Hq.
  - intros s. apply match_prefix_literal.
Qed.

(** The examples of the specification for the search. *)
Example search_anchoring :
  re_compile small_engine (u "hello") = Some (cat_all (List.map Chr (u "hello")))
  /\ match_prefix (cat_all (List.map Chr (u "hello"))) (u "hello world") = true
  /\ match_prefix (cat_all (List.map Chr (u "hello"))) (u "say hello") = false
  /\ match_anywhere (cat_all (List.map Chr (u "hello"))) (u "say hello") = true
  /\ contains (u "hello world") (u "hello") = true
  /\ contains (u "say hello") (u "hello") = true
  /\ contains (u "say hello") (u "Hello") = false.
Proof. repeat split; reflexivity. Qed.

(** The scenario of the specification: two rows loaded, the second
    transcript edited, saved and exported. *)
Example scenario_saved :
  files (disk (run (save false YES) w_edited)) !! json_file data
  = Some (FJson (JArr [ record 0 (u "a") (u "hello") false false;
                        record 1 (u "b") (u "world!") false false ])).
Proof. vm_compute. reflexivity. Qed.

Example csv_reader_example :
  csv_reader_rows example_csv
  = Some [ [u "a"; u "x"; u "hello"]; [u "b"; u "x"; u "world"] ].
Proof. reflexivity. Qed.

(** A blank row is skipped and still counted. *)
Example blank_row_consumes_index :
  List.map idx (entries_of_rows data [ [u "a"; u "hello"]; []; [u "b"; u "world"] ])
  = [0; 2].
Proof. reflexivity. Qed.

(** A field with a quote or a pipe is written quoted, quotes doubled. *)
Example csv_quoting :
  csv_writerow [u "a"; []; u "say " ++ [quotechar] ++ u "hi" ++ [quotechar] ++ u "|now"]
  = u "a||" ++ [quotechar] ++ u "say " ++ [quotechar; quotechar] ++ u "hi"
    ++ [quotechar; quotechar] ++ u "|now" ++ [quotechar] ++ [CR; LF].
Proof. reflexivity. Qed.
